(** * Pinecone: catalog construction and content classification

    A shallow embedding of [pinecone.cpp]: the catalog built by
    [loadJSONData], the scan [checkForContent], the statistics printer and
    [main], followed by the properties of the specification that concern
    them.

    Modelling conventions.
    - [std::string] is [string]; [std::vector] is [list]; [std::map] with
      string keys is [gmap string _].
    - The parsed catalog is a [rapidjson.Value].  rapidjson checks the
      preconditions of its accessors with [RAPIDJSON_ASSERT], which is the C
      [assert] unless redefined; a violated precondition is modelled as the
      failure [assertion_failed], an exception of the C++ standard library as
      [runtime_error].
    - The scanned volume is a tree of [fs.node]s, listed in the order the
      directory iterator yields them.  Names are matched exactly, as on a
      case-sensitive file system.  Opening a directory iterator fails with
      [filesystem_error] on a node that is not a directory and on a
      directory whose listing is refused; the scan catches no such error,
      so it ends the process.  Errors of [exists], [is_directory] and
      [is_regular_file] themselves, and errors while an open iterator
      advances, are not modelled.
    - Output is a list of [event]s, one constructor per output site of the
      source; [render] gives the text written for each.  When the process
      is aborted the events are those written to the streams until then;
      what the runtime adds of its own, and whether buffered output still
      reaches its destination, is not modelled. *)

From Stdlib Require Import ZArith NArith String Ascii List Lia.
From Stdlib.Strings Require Import Byte.
From stdpp Require Import gmap strings list fin_maps sorting pretty.

Set Warnings "-register-all,-abstract-large-number".

(** ** Strings *)

Module Str.

(** [::tolower] in the C locale. *)
Definition tolower (c : ascii) : ascii :=
  let n := N_of_ascii c in
  if ((65 <=? n) && (n <=? 90))%N then ascii_of_N (n + 32) else c.

(** [std::transform(s.begin(), s.end(), s.begin(), f)]. *)
Fixpoint transform (f : ascii -> ascii) (s : string) : string :=
  match s with
  | EmptyString => EmptyString
  | String c s' => String (f c) (transform f s')
  end.

(** [s.find(c)]: position of the first occurrence, [None] for [npos]. *)
Fixpoint find (c : ascii) (s : string) : option nat :=
  match s with
  | EmptyString => None
  | String a s' => if Ascii.eqb a c then Some 0 else option_map S (find c s')
  end.

(** [s.rfind(c)]: position of the last occurrence. *)
Fixpoint rfind (c : ascii) (s : string) : option nat :=
  match s with
  | EmptyString => None
  | String a s' =>
      match rfind c s' with
      | Some i => Some (S i)
      | None => if Ascii.eqb a c then Some 0 else None
      end
  end.

(** [s.substr(pos)] for [pos <= s.size()], the only use the program makes
    of it (beyond the size the C++ function throws). *)
Fixpoint substr (pos : nat) (s : string) : string :=
  match pos, s with
  | 0, _ => s
  | S p, String _ s' => substr p s'
  | S _, EmptyString => EmptyString
  end.

(** A [std::string] built from a [const char *]: the characters before the
    first NUL. *)
Fixpoint c_str (s : string) : string :=
  match s with
  | EmptyString => EmptyString
  | String c s' => if Ascii.eqb c "000" then EmptyString else String c (c_str s')
  end.

(** Equality up to letter case, the comparison the specification speaks of. *)
Definition iequals (a b : string) : bool :=
  String.eqb (transform tolower a) (transform tolower b).

End Str.

(** ** Failures *)

Inductive failure :=
| runtime_error (what : string)
| filesystem_error (what : string)
| assertion_failed (expr : string).

Definition what (e : failure) : string :=
  match e with
  | runtime_error w => w
  | filesystem_error w => w
  | assertion_failed x => x
  end.

(** Computations that may fail: the error monad over [failure]. *)
Definition result (A : Type) : Type := failure + A.

Definition ok {A} (a : A) : result A := inr a.
Definition throw {A} (e : failure) : result A := inl e.

#[global] Instance result_ret : MRet result := fun A a => inr a.
#[global] Instance result_bind : MBind result := fun A B k m =>
  match m with
  | inl e => inl e
  | inr a => k a
  end.

(** Run [f] over a list from left to right, stopping at the first failure. *)
Fixpoint rmap {A B} (f : A -> result B) (l : list A) : result (list B) :=
  match l with
  | [] => ok []
  | a :: l' => (b ← f a; bs ← rmap f l'; ok (b :: bs))
  end.

Fixpoint rfold {A S} (f : S -> A -> result S) (s : S) (l : list A) : result S :=
  match l with
  | [] => ok s
  | a :: l' => (s' ← f s a; rfold f s' l')
  end.

Definition succeeds {A} (r : result A) : bool :=
  match r with inr _ => true | inl _ => false end.

(** ** The parsed catalog (rapidjson) *)

Module rapidjson.

Inductive Value :=
| kNull
| kBool (b : bool)
| kNumber (n : Z)
| kString (s : string)
| kArray (elements : list Value)
| kObject (members : list (string * Value)).

Definition IsNull (v : Value) : bool :=
  match v with kNull => true | _ => false end.
Definition IsObject (v : Value) : bool :=
  match v with kObject _ => true | _ => false end.
Definition IsArray (v : Value) : bool :=
  match v with kArray _ => true | _ => false end.
Definition IsString (v : Value) : bool :=
  match v with kString _ => true | _ => false end.

(** The first member with the given name. *)
Fixpoint lookup_member (name : string) (ms : list (string * Value)) : option Value :=
  match ms with
  | [] => None
  | (k, v) :: ms' => if String.eqb k name then Some v else lookup_member name ms'
  end.

Definition FindMember (name : string) (v : Value) : result (option Value) :=
  match v with
  | kObject ms => ok (lookup_member name ms)
  | _ => throw (assertion_failed "IsObject()")
  end.

Definition HasMember (name : string) (v : Value) : result bool :=
  (m ← FindMember name v; ok (if m is Some _ then true else false)).

(** [v[name]]. *)
Definition at_ (v : Value) (name : string) : result Value :=
  (m ← FindMember name v;
   match m with
   | Some x => ok x
   | None => throw (assertion_failed "false")
   end).

(** [v.GetString()], converted to [std::string]. *)
Definition GetString (v : Value) : result string :=
  match v with
  | kString s => ok (Str.c_str s)
  | _ => throw (assertion_failed "IsString()")
  end.

Definition GetArray (v : Value) : result (list Value) :=
  match v with
  | kArray l => ok l
  | _ => throw (assertion_failed "IsArray()")
  end.

(** The members from [MemberBegin()] to [MemberEnd()]. *)
Definition Members (v : Value) : result (list (string * Value)) :=
  match v with
  | kObject ms => ok ms
  | _ => throw (assertion_failed "IsObject()")
  end.

End rapidjson.

(** ** The catalog *)

Record TitleUpdate := mkTitleUpdate {
  Name : string;
  SHA1 : string
}.

Record TitleData := mkTitleData {
  TitleName : string;
  ContentIDs : list string;
  TitleUpdates : list TitleUpdate;
  TitleUpdatesKnown : list TitleUpdate;
  Archived : list (gmap string string)
}.

(** A default-constructed [TitleData]. *)
Definition TitleData_default : TitleData :=
  mkTitleData "" [] [] [] [].

(** [struct Titles], whose only field is the map [Titles]. *)
Record Titles := mkTitles {
  Titles_map : gmap string TitleData
}.

Definition Titles_empty : Titles := mkTitles ∅.

(** ** loadJSONData *)

Definition localPath : string := "data/id_database.json".

Import rapidjson.

(** [title.HasMember(name) && p(title[name])], yielding the member when the
    test holds. *)
Definition member_if (title : Value) (name : string) (p : Value -> bool)
  : result (option Value) :=
  (has ← HasMember name title;
   if has : bool then (v ← at_ title name; ok (if p v then Some v else None))
   else ok None).

Definition load_update (update : Value) : result TitleUpdate :=
  (n ← (v ← at_ update "Name"; GetString v);
   h ← (v ← at_ update "SHA1"; GetString v);
   ok (mkTitleUpdate n h)).

Definition load_archived (archived : Value) : result (gmap string string) :=
  (ms ← Members archived;
   rfold (fun (archivedContent : gmap string string) '(name, value) =>
            s ← GetString value;
            ok (<[Str.c_str name := s]> archivedContent))
         ∅ ms).

Definition load_title (title : Value) : result TitleData :=
  (name ← member_if title "Title Name" IsString;
   TitleName_ ← (if name is Some v then GetString v else ok "");
   ids ← member_if title "Content IDs" IsArray;
   ContentIDs_ ← (if ids is Some v then (l ← GetArray v; rmap GetString l) else ok []);
   ups ← member_if title "Title Updates" IsArray;
   TitleUpdates_ ← (if ups is Some v then (l ← GetArray v; rmap load_update l) else ok []);
   known ← member_if title "Title Updates Known" IsArray;
   TitleUpdatesKnown_ ← (if known is Some v then (l ← GetArray v; rmap load_update l) else ok []);
   arch ← member_if title "Archived" IsArray;
   Archived_ ← (if arch is Some v then (l ← GetArray v; rmap load_archived l) else ok []);
   ok (mkTitleData TitleName_ ContentIDs_ TitleUpdates_ TitleUpdatesKnown_ Archived_)).

(** The key a title is stored under: its identifier in lower case. *)
Definition title_key (name : string) : string :=
  Str.transform Str.tolower (Str.c_str name).

(** The loop over the members of [Titles]. *)
Definition load_titles (titles : Titles) (ms : list (string * Value)) : result Titles :=
  rfold (fun (titles : Titles) '(name, title) =>
           let titleID := title_key name in
           data ← load_title title;
           ok (mkTitles (<[titleID := data]> (Titles_map titles))))
        titles ms.

(** [file] is the catalog file: [None] when it cannot be opened, otherwise
    the document after [Parse] (left null by a parse error).  [titles] is
    the object passed by reference.  The line the function writes first is
    [LoadingJSON], emitted in [main]. *)
Definition loadJSONData (file : option Value) (titles : Titles) : result Titles :=
  match file with
  | None => throw (runtime_error ("Failed to open file: " +:+ localPath))
  | Some jsonData =>
      if IsNull jsonData || negb (IsObject jsonData)
      then throw (runtime_error "Failed to parse JSON or JSON is not an object")
      else
        jsonTitles ← at_ jsonData "Titles";
        if negb (IsObject jsonTitles)
        then throw (runtime_error "JSON does not contain 'Titles' object")
        else
          ms ← Members jsonTitles;
          load_titles titles ms
  end.

(** ** The scanned volume *)

Module fs.

(** What opening a regular file gives: the file cannot be opened, or its
    bytes can be read. *)
Inductive file_contents :=
| unreadable
| readable (bytes : list byte).

(** A [locked_directory] is a directory whose listing is refused: its
    entries are still reached by their paths, but no iterator opens on
    it. *)
Inductive node :=
| directory (name : string) (entries : list node)
| locked_directory (name : string) (entries : list node)
| regular_file (name : string) (contents : file_contents)
| other (name : string).

Definition filename (n : node) : string :=
  match n with
  | directory name _ | locked_directory name _
  | regular_file name _ | other name => name
  end.

Definition is_directory (n : node) : bool :=
  match n with directory _ _ | locked_directory _ _ => true | _ => false end.

Definition is_regular_file (n : node) : bool :=
  match n with regular_file _ _ => true | _ => false end.

(** The entries of a directory, by which the paths below it resolve. *)
Definition entries (n : node) : list node :=
  match n with directory _ l | locked_directory _ l => l | _ => [] end.

(** [directory_iterator(path)], where [n] is the node at [path]: the
    listing, or the error the constructor throws. *)
Definition directory_iterator (path : string) (n : node) : result (list node) :=
  match n with
  | directory _ l => ok l
  | locked_directory _ _ =>
      throw (filesystem_error
               ("filesystem error: directory iterator cannot open directory: "
                  +:+ "Permission denied [" +:+ path +:+ "]"))
  | _ =>
      throw (filesystem_error
               ("filesystem error: directory iterator cannot open directory: "
                  +:+ "Not a directory [" +:+ path +:+ "]"))
  end.

(** The entry of a listing with the given name. *)
Fixpoint lookup (name : string) (l : list node) : option node :=
  match l with
  | [] => None
  | n :: l' => if String.eqb (filename n) name then Some n else lookup name l'
  end.

(** [path::extension()] of a file name: from the last dot on, unless the
    name is dot or dot-dot or its only dot is the first character. *)
Definition extension (filename : string) : string :=
  if String.eqb filename "." || String.eqb filename ".." then ""
  else
    match Str.rfind "." filename with
    | Some (S p) => Str.substr (S p) filename
    | _ => ""
    end.

Fixpoint last_char (s : string) : option ascii :=
  match s with
  | EmptyString => None
  | String c EmptyString => Some c
  | String _ s' => last_char s'
  end.

Section Platform.

(** Whether the program is built with [_WIN32] defined. *)
Variable WIN32 : bool.

Definition preferred_separator : string := if WIN32 then "\" else "/".

Definition is_separator (c : ascii) : bool :=
  Ascii.eqb c "/" || (WIN32 && Ascii.eqb c "\").

(** [(p / name).string()], the path of the entry [name] of directory [p]. *)
Definition append (p name : string) : string :=
  match last_char p with
  | None => name
  | Some c =>
      if is_separator c then p +:+ name
      else p +:+ preferred_separator +:+ name
  end.

End Platform.

End fs.

(** ** Output *)

Inductive stream := cout | cerr.

Inductive event :=
(* checkForContent *)
| DirectoryNotFound (directory : string)
| FoundFolder (titleName : string)
| CheckingContentID (contentID : string)
| ContentIDFound (contentID : string)
| ArchivedContentFound (titleName path archivedName : string)
| UnarchivedContentFound (titleName path : string)
| FoundContent (filename : string)
| FoundUnknownFormat (filename : string)
| UnknownContentFound (titleName path : string)
| NoDLCFound (titleID : string)
| HashError (filePath what : string)
| TitleUpdateFound (titleName titleID name filePath fileHash : string)
| NoHashMatch (filename fileHash filePath : string)
| NoTitleUpdates (titleID : string)
| TitleNotPresent (titleID directory : string)
(* printStats *)
| StatsHeader (titleID : string)
| TitleStats (titleName : string) (contentIDs titleUpdates titleUpdatesKnown archived : nat)
| NoDataFound (titleID : string)
(* loadJSONData and main *)
| Usage
| LoadingJSON
| ErrorLoadingJSON (what : string)
| Banner
| CheckingForContent
| XDriveNotFound
| WindowsOnly
| TDATANotFound.

Definition rule : string :=
  "====================================================================================================".

Definition quote : string := String (ascii_of_N 34) EmptyString.

(** Decimal text of a count. *)
Definition dec (n : nat) : string := pretty n.

(** The lines written for an event, each with the stream it goes to. *)
Definition render (e : event) : list (stream * string) :=
  match e with
  | DirectoryNotFound directory => [(cerr, directory +:+ " directory not found")]
  | FoundFolder titleName =>
      [(cout, "Found folder for " +:+ quote +:+ titleName +:+ quote +:+ ".")]
  | CheckingContentID contentID => [(cout, "Checking contentID: " +:+ contentID)]
  | ContentIDFound contentID => [(cout, "ContentID found in known IDs: " +:+ contentID)]
  | ArchivedContentFound titleName path archivedName =>
      [(cout, titleName +:+ " content found at: " +:+ path +:+ " is archived ("
              +:+ archivedName +:+ ").")]
  | UnarchivedContentFound titleName path =>
      [(cout, titleName +:+ " has unarchived content found at: " +:+ path)]
  | FoundContent filename => [(cout, "Found content.. " +:+ filename)]
  | FoundUnknownFormat filename => [(cout, "Found unknown file format: " +:+ filename)]
  | UnknownContentFound titleName path =>
      [(cout, titleName +:+ " unknown content found at: " +:+ path)]
  | NoDLCFound titleID => [(cout, "No DLC Found for " +:+ titleID +:+ "..")]
  | HashError filePath what =>
      [(cerr, "Error computing SHA1 hash for file " +:+ filePath +:+ ": " +:+ what)]
  | TitleUpdateFound titleName titleID name filePath fileHash =>
      [(cout, "Title update found for " +:+ titleName +:+ " (" +:+ titleID +:+ ") ("
              +:+ name +:+ ")");
       (cout, "Path: " +:+ filePath);
       (cout, "SHA1: " +:+ fileHash);
       (cout, rule)]
  | NoHashMatch filename fileHash filePath =>
      [(cout, "No SHA1 hash matches found for file " +:+ filename);
       (cout, "SHA1 for unknown content: " +:+ fileHash);
       (cout, "Path: " +:+ filePath);
       (cout, rule)]
  | NoTitleUpdates titleID =>
      [(cout, "No Title Updates Found in $u for " +:+ titleID +:+ "..");
       (cout, rule)]
  | TitleNotPresent titleID directory =>
      [(cout, "Title ID " +:+ titleID +:+ " not present in JSON file.");
       (cout, "We found a folder with the correct format, but it's not in the JSON file.");
       (cout, "Please report this to the developer.");
       (cout, "Path: " +:+ directory);
       (cout, rule)]
  | StatsHeader titleID => [(cout, "Statistics for title ID " +:+ titleID +:+ ":")]
  | TitleStats titleName contentIDs titleUpdates titleUpdatesKnown archived =>
      [(cout, "Title: " +:+ titleName);
       (cout, "Total number of Content IDs: " +:+ dec contentIDs);
       (cout, "Total number of Title Updates: " +:+ dec titleUpdates);
       (cout, "Total number of Known Title Updates: " +:+ dec titleUpdatesKnown);
       (cout, "Total number of Archived items: " +:+ dec archived);
       (cout, "")]
  | NoDataFound titleID => [(cout, "No data found for title ID " +:+ titleID)]
  | Usage =>
      [(cout, "Usage of Pinecone:");
       (cout, "  -summarize: Print summary statistics for all titles. If not set, checks for content in the TDATA folder.");
       (cout, "  -titleid: Filter statistics by Title ID (-titleID=ABCD1234). If not set, statistics are computed for all titles.");
       (cout, "  -fatxplorer: Use FATXPlorer's X drive as the root directory. If not set, runs as normal. (Windows Only)");
       (cout, "  -help: Display this help information.")]
  | LoadingJSON => [(cout, "Loading JSON data from " +:+ localPath)]
  | ErrorLoadingJSON what => [(cerr, "Error loading JSON data: " +:+ what)]
  | Banner =>
      [(cout, "Pinecone v0.3.1b");
       (cout, "Please share output of this program with the Pinecone team if you find anything interesting!");
       (cout, rule)]
  | CheckingForContent => [(cout, "Checking for Content..."); (cout, rule)]
  | XDriveNotFound => [(cout, "FatXplorer's X: drive not found")]
  | WindowsOnly => [(cout, "FatXplorer mode is only available on Windows.")]
  | TDATANotFound =>
      [(cout, "TDATA folder not found. Please place TDATA folder in the dump folder.")]
  end.

(** ** SHA-1

    OpenSSL's [SHA1_Init], [SHA1_Update] and [SHA1_Final], after FIPS 180-4. *)

Module SHA.

Local Open Scope Z_scope.

(** 32-bit words are integers in [0, 2^32). *)
Definition wrap (x : Z) : Z := x mod 2 ^ 32.

Definition rotl (n x : Z) : Z :=
  wrap (Z.lor (Z.shiftl x n) (Z.shiftr x (32 - n))).

Definition not32 (x : Z) : Z := Z.lxor x 0xFFFFFFFF.

Definition Z_of_byte (b : byte) : Z := Z.of_N (Byte.to_N b).

Definition byte_of_Z (z : Z) : byte :=
  match Byte.of_N (Z.to_N (z mod 256)) with
  | Some b => b
  | None => x00
  end.

(** The big-endian word of four bytes, and back. *)
Definition word_of_bytes (b0 b1 b2 b3 : byte) : Z :=
  Z.lor (Z.shiftl (Z_of_byte b0) 24)
    (Z.lor (Z.shiftl (Z_of_byte b1) 16)
       (Z.lor (Z.shiftl (Z_of_byte b2) 8) (Z_of_byte b3))).

Definition bytes_of_word (w : Z) : list byte :=
  [byte_of_Z (Z.shiftr w 24); byte_of_Z (Z.shiftr w 16);
   byte_of_Z (Z.shiftr w 8); byte_of_Z w].

Fixpoint words_of_bytes (l : list byte) : list Z :=
  match l with
  | b0 :: b1 :: b2 :: b3 :: l' => word_of_bytes b0 b1 b2 b3 :: words_of_bytes l'
  | _ => []
  end.

(** The message schedule, latest word first: [n] more words after [rw]. *)
Fixpoint expand (n : nat) (rw : list Z) : list Z :=
  match n with
  | O => rw
  | S n' =>
      let w i := nth i rw 0 in
      expand n' (rotl 1 (Z.lxor (Z.lxor (w 2%nat) (w 7%nat))
                                (Z.lxor (w 13%nat) (w 15%nat))) :: rw)
  end.

Definition hash_state : Type := Z * Z * Z * Z * Z.

Definition round (st : hash_state) (iw : nat * Z) : hash_state :=
  let '(a, b, c, d, e) := st in
  let '(i, w) := iw in
  let '(f, k) :=
    if (i <? 20)%nat then (Z.lor (Z.land b c) (Z.land (not32 b) d), 0x5A827999)
    else if (i <? 40)%nat then (Z.lxor (Z.lxor b c) d, 0x6ED9EBA1)
    else if (i <? 60)%nat
    then (Z.lor (Z.lor (Z.land b c) (Z.land b d)) (Z.land c d), 0x8F1BBCDC)
    else (Z.lxor (Z.lxor b c) d, 0xCA62C1D6) in
  (wrap (rotl 5 a + f + e + k + w), a, rotl 30 b, c, d).

(** One 64-byte block. *)
Definition block (st : hash_state) (bytes : list byte) : hash_state :=
  let w := rev (expand 64 (rev (words_of_bytes bytes))) in
  let '(a, b, c, d, e) := fold_left round (imap (fun i x => (i, x)) w) st in
  let '(h0, h1, h2, h3, h4) := st in
  (wrap (h0 + a), wrap (h1 + b), wrap (h2 + c), wrap (h3 + d), wrap (h4 + e)).

(** All the full blocks of [bytes]; what is left is shorter than a block. *)
Fixpoint blocks (fuel : nat) (st : hash_state) (bytes : list byte)
  : hash_state * list byte :=
  match fuel with
  | O => (st, bytes)
  | S fuel' =>
      if (64 <=? length bytes)%nat
      then blocks fuel' (block st (firstn 64 bytes)) (skipn 64 bytes)
      else (st, bytes)
  end.

Record SHA_CTX := mkCTX {
  h : hash_state;
  data : list byte;   (* the bytes of the block in progress *)
  N : Z               (* the bytes hashed so far *)
}.

Definition SHA1_Init : SHA_CTX :=
  mkCTX (0x67452301, 0xEFCDAB89, 0x98BADCFE, 0x10325476, 0xC3D2E1F0) [] 0.

Definition SHA1_Update (c : SHA_CTX) (bytes : list byte) : SHA_CTX :=
  let all := (data c ++ bytes)%list in
  let '(st, rest) := blocks (length all) (h c) all in
  mkCTX st rest (N c + Z.of_nat (length bytes)).

(** The padding: a one bit, zeros up to 56 bytes modulo 64, and the length
    of the message in bits as 64 bits, big-endian. *)
Definition padding (pending : nat) (bits : Z) : list byte :=
  let zeros := ((119 - pending) mod 64)%nat in
  (x80 :: repeat x00 zeros)
  ++ bytes_of_word (Z.shiftr bits 32 mod 2 ^ 32) ++ bytes_of_word (bits mod 2 ^ 32).

Definition SHA1_Final (c : SHA_CTX) : list byte :=
  let all := (data c ++ padding (length (data c)) (8 * N c))%list in
  let '(h0, h1, h2, h3, h4) := (blocks (length all) (h c) all).1 in
  bytes_of_word h0 ++ bytes_of_word h1 ++ bytes_of_word h2
  ++ bytes_of_word h3 ++ bytes_of_word h4.

End SHA.

(** ** getSHA1Hash *)

Definition hex_digit (n : N) : ascii :=
  match String.get (N.to_nat n) "0123456789abcdef" with
  | Some c => c
  | None => "0"%char
  end.

(** [std::hex << std::setw(2) << std::setfill('0') << static_cast<int>(byte)]. *)
Definition hex_byte (b : byte) : string :=
  let n := Byte.to_N b in
  String (hex_digit (n / 16)) (String (hex_digit (n mod 16)) EmptyString).

Fixpoint hex_string (hash : list byte) : string :=
  match hash with
  | [] => EmptyString
  | b :: hash' => hex_byte b +:+ hex_string hash'
  end.

Definition SHA_DIGEST_LENGTH : nat := 20.

Definition buffer_size : nat := 4096.

(** [while (file.read(buffer.data(), buffer.size())) SHA1_Update(...)]: a
    read succeeds while a whole buffer is left; [file] is what remains to be
    read. *)
Fixpoint read_loop (fuel : nat) (sha1 : SHA.SHA_CTX) (file : list byte)
  : SHA.SHA_CTX * list byte :=
  match fuel with
  | O => (sha1, file)
  | S fuel' =>
      if buffer_size <=? length file
      then read_loop fuel' (SHA.SHA1_Update sha1 (firstn buffer_size file))
             (skipn buffer_size file)
      else (sha1, file)
  end.

(** The digest of an open file: the loop, the update with the [gcount()]
    bytes of the last read, and [SHA1_Final]. *)
Definition hash_file (file : list byte) : list byte :=
  let '(sha1, rest) := read_loop (length file) SHA.SHA1_Init file in
  SHA.SHA1_Final (SHA.SHA1_Update sha1 rest).

Arguments hash_file : simpl never.

(** [file] is what opening [filePath] gives. *)
Definition getSHA1Hash (file : fs.file_contents) (filePath : string) : result string :=
  match file with
  | fs.unreadable => throw (runtime_error ("Failed to open file: " +:+ filePath))
  | fs.readable bytes => ok (hex_string (hash_file bytes))
  end.

(** ** contains *)

Fixpoint contains (vec : list string) (val : string) : bool :=
  match vec with
  | [] => false
  | x :: vec' => if String.eqb x val then true else contains vec' val
  end.

(** ** checkForContent *)

(** The scan runs on the catalog it receives by reference and on the output
    streams, and an exception may leave it: a state monad over both, with
    failure.  What was written before a failure stays written. *)
Record state := mkState {
  catalog : Titles;
  output : list event
}.

Definition io (A : Type) : Type := state -> result A * state.

#[global] Instance io_ret : MRet io := fun A a s => (ok a, s).
#[global] Instance io_bind : MBind io := fun A B k m s =>
  match m s with
  | (inr a, s') => k a s'
  | (inl e, s') => (inl e, s')
  end.

(** A step that only returns or throws. *)
Definition lift {A} (r : result A) : io A := fun s => (r, s).

Definition emit (e : event) : io unit := fun s =>
  (ok tt, mkState (catalog s) (output s ++ [e])).

(** [titles.Titles.find(titleID)]: the record the iterator points to, [None]
    for [end()]. *)
Definition Titles_find (titleID : string) : io (option TitleData) := fun s =>
  (ok (Titles_map (catalog s) !! titleID), s).

(** A range-based [for] over a list. *)
Fixpoint for_each {A} (l : list A) (body : A -> io unit) : io unit :=
  match l with
  | [] => mret tt
  | a :: l' => _ ← body a; for_each l' body
  end.

(** The loop over [Archived]: the label of the first entry holding
    [contentID], the empty string when there is none. *)
Fixpoint find_archived (archived : list (gmap string string)) (contentID : string)
  : string :=
  match archived with
  | [] => EmptyString
  | a :: archived' =>
      match a !! contentID with
      | Some archivedName => archivedName
      | None => find_archived archived' contentID
      end
  end.

(** The name reported for a matched update: what follows the first colon,
    the whole name when it has none. *)
Definition display_name (name : string) : string :=
  match Str.find ":" name with
  | Some splitPosition => Str.substr (splitPosition + 1) name
  | None => name
  end.

Definition known_suffix (extension : string) : bool :=
  String.eqb extension ".xbe" || String.eqb extension ".xbx".

Section Scan.

Variable WIN32 : bool.

(** The body of the loop over the files of an unarchived content folder. *)
Definition check_content_file (file : fs.node) : io unit :=
  if fs.is_regular_file file then
    let extension := fs.extension (fs.filename file) in
    if known_suffix extension
    then emit (FoundContent (fs.filename file))
    else emit (FoundUnknownFormat (fs.filename file))
  else mret tt.

(** The body of the loop over the entries of [$c]. *)
Definition check_subContent (data : TitleData) (subDirDLC : string)
    (subContent : fs.node) : io unit :=
  if fs.is_directory subContent then
    let contentID := Str.transform Str.tolower (fs.filename subContent) in
    let path := fs.append WIN32 subDirDLC (fs.filename subContent) in
    _ ← emit (CheckingContentID contentID);
    if contains (ContentIDs data) contentID then
      _ ← emit (ContentIDFound contentID);
      let archivedName := find_archived (Archived data) contentID in
      if negb (String.eqb archivedName EmptyString) then
        emit (ArchivedContentFound (TitleName data) path archivedName)
      else
        _ ← emit (UnarchivedContentFound (TitleName data) path);
        files ← lift (fs.directory_iterator path subContent);
        for_each files check_content_file
    else emit (UnknownContentFound (TitleName data) path)
  else mret tt.

(** The loop over [TitleUpdatesKnown]; returns [hashMatchFound]. *)
Fixpoint match_known (known : list TitleUpdate) (data : TitleData)
    (titleID filePath fileHash : string) : io bool :=
  match known with
  | [] => mret false
  | knownUpdate :: known' =>
      if String.eqb fileHash (SHA1 knownUpdate) then
        let name := display_name (Name knownUpdate) in
        _ ← emit (TitleUpdateFound (TitleName data) titleID name filePath fileHash);
        mret true
      else match_known known' data titleID filePath fileHash
  end.

(** The body of the loop over the entries of [$u]. *)
Definition check_update_file (data : TitleData) (titleID subDirUpdates : string)
    (file : fs.node) : io unit :=
  match file with
  | fs.regular_file name contents =>
      let extension := fs.extension name in
      if known_suffix extension then
        let filePath := fs.append WIN32 subDirUpdates name in
        match getSHA1Hash contents filePath with
        | inl e => emit (HashError filePath (what e))
        | inr fileHash =>
            hashMatchFound ← match_known (TitleUpdatesKnown data) data titleID filePath fileHash;
            if negb hashMatchFound
            then emit (NoHashMatch name fileHash filePath)
            else mret tt
        end
      else mret tt
  | _ => mret tt
  end.

(** The test [fs::exists(path) && fs::is_directory(path)] for the entry
    named [name] of a title folder: the node it holds for. *)
Definition directory_at (name : string) (entry : fs.node) : option fs.node :=
  match fs.lookup name (fs.entries entry) with
  | Some n => if fs.is_directory n then Some n else None
  | None => None
  end.

(** The [$c] part of a title folder whose path is [entry_path]. *)
Definition check_dlc (data : TitleData) (titleID entry_path : string)
    (entry : fs.node) : io unit :=
  let subDirDLC := entry_path +:+ "/$c" in
  match directory_at "$c" entry with
  | Some dlc =>
      subContents ← lift (fs.directory_iterator subDirDLC dlc);
      for_each subContents (check_subContent data subDirDLC)
  | None => emit (NoDLCFound titleID)
  end.

(** The [$u] part of a title folder. *)
Definition check_updates (data : TitleData) (titleID entry_path : string)
    (entry : fs.node) : io unit :=
  let subDirUpdates := entry_path +:+ "/$u" in
  match directory_at "$u" entry with
  | Some updates =>
      files ← lift (fs.directory_iterator subDirUpdates updates);
      for_each files (check_update_file data titleID subDirUpdates)
  | None => emit (NoTitleUpdates titleID)
  end.

(** The body of the loop over the entries of the root directory. *)
Definition check_entry (directory : string) (entry : fs.node) : io unit :=
  if fs.is_directory entry && (String.length (fs.filename entry) =? 8) then
    let titleID := Str.transform Str.tolower (fs.filename entry) in
    it ← Titles_find titleID;
    match it with
    | Some data =>
        let entry_path := fs.append WIN32 directory (fs.filename entry) in
        _ ← emit (FoundFolder (TitleName data));
        _ ← check_dlc data titleID entry_path entry;
        check_updates data titleID entry_path entry
    | None => emit (TitleNotPresent titleID directory)
    end
  else mret tt.

(** [volume] gives the node at a path, [None] when nothing exists there. *)
Definition checkForContent (volume : string -> option fs.node)
    (directory : string) : io unit :=
  match volume directory with
  | None => emit (DirectoryNotFound directory)
  | Some root =>
      entries ← lift (fs.directory_iterator directory root);
      for_each entries (check_entry directory)
  end.

End Scan.

(** ** printStats *)

Definition printTitleStats (data : TitleData) : io unit :=
  emit (TitleStats (TitleName data)
          (length (ContentIDs data)) (length (TitleUpdates data))
          (length (TitleUpdatesKnown data)) (length (Archived data))).

(** The elements of a [std::map] in iteration order: ascending keys. *)
Definition in_key_order {V} (m : gmap string V) : list (string * V) :=
  merge_sort (fun a b => Is_true (String.leb a.1 b.1)) (map_to_list m).

Definition printStats (titleID : string) (batch : bool) (titles : Titles) : io unit :=
  if batch then
    for_each (in_key_order (Titles_map titles)) (fun '(id, data) =>
      _ ← emit (StatsHeader id);
      printTitleStats data)
  else
    match Titles_map titles !! titleID with
    | None => emit (NoDataFound titleID)
    | Some data =>
        _ ← emit (StatsHeader titleID);
        printTitleStats data
    end.

(** ** main *)

(** How the process ends: [main] returns a status, or the process is
    aborted, by a failed assertion or by an exception nothing catches. *)
Inductive exit_status :=
| returned (code : Z)
| aborted.

Record flags := mkFlags {
  summarizeFlag : bool;
  titleIDFlag : string;
  fatxplorer : bool
}.

(** The loop over [argv[1]] to [argv[argc - 1]]; [None] when [-help] ends
    the program. *)
Fixpoint parse_args (args : list string) (f : flags) : option flags :=
  match args with
  | [] => Some f
  | arg :: args' =>
      if String.eqb arg "-summarize"
      then parse_args args' (mkFlags true (titleIDFlag f) (fatxplorer f))
      else if String.prefix "-titleid=" arg
      then parse_args args' (mkFlags (summarizeFlag f) (Str.substr 9 arg) (fatxplorer f))
      else if String.eqb arg "-fatxplorer"
      then parse_args args' (mkFlags (summarizeFlag f) (titleIDFlag f) true)
      else if String.eqb arg "-help"
      then None
      else parse_args args' f
  end.

(** What the process finds around it: the catalog file (see
    [loadJSONData]) and the nodes of the volume by path. *)
Record World := mkWorld {
  id_database : option Value;
  volume : string -> option fs.node
}.

(** [fs::exists(path)]. *)
Definition exists_ (w : World) (path : string) : bool :=
  if volume w path is Some _ then true else false.

Section Main.

Variable WIN32 : bool.

(** [main] after the catalog is loaded into [titles]. *)
Definition run (f : flags) (w : World) (titles : Titles) : io exit_status :=
  _ ← emit Banner;
  if negb (String.eqb (titleIDFlag f) EmptyString) then
    _ ← printStats (titleIDFlag f) false titles;
    mret (returned 0)
  else if summarizeFlag f then
    _ ← printStats EmptyString true titles;
    mret (returned 0)
  else if fatxplorer f then
    if WIN32 then
      if exists_ w "X:/" then
        _ ← emit CheckingForContent;
        _ ← checkForContent WIN32 (volume w) "X:/TDATA";
        mret (returned 0)
      else
        _ ← emit XDriveNotFound;
        mret (returned 0)
    else
      _ ← emit WindowsOnly;
      mret (returned 0)
  else
    if negb (exists_ w "dump/TDATA") then
      _ ← emit TDATANotFound;
      mret (returned 1)
    else
      _ ← emit CheckingForContent;
      _ ← checkForContent WIN32 (volume w) "dump/TDATA";
      mret (returned 0).

(** [args] is [argv] without the program name.  The result is the exit
    status and everything written.  The [catch] clause covers the call of
    [loadJSONData] only, and exceptions only. *)
Definition main (args : list string) (w : World) : exit_status * list event :=
  match parse_args args (mkFlags false EmptyString false) with
  | None => (returned 0, [Usage])
  | Some f =>
      match loadJSONData (id_database w) Titles_empty with
      | inl (assertion_failed _) => (aborted, [LoadingJSON])
      | inl e => (returned 1, [LoadingJSON; ErrorLoadingJSON (what e)])
      | inr titles =>
          match run f w titles (mkState titles [LoadingJSON]) with
          | (inr status, s) => (status, output s)
          | (inl _, s) => (aborted, output s)
          end
      end
  end.

End Main.

(** The exit status seen by the caller is zero. *)
Definition exit_zero (e : exit_status) : bool :=
  match e with
  | returned 0 => true
  | _ => false
  end.

(** * Properties *)

(** ** Running a scan *)

Definition start (titles : Titles) : state := mkState titles [].

(** What a computation writes when run on the catalog [titles]. *)
Definition trace {A} (m : io A) (titles : Titles) : list event :=
  output (m (start titles)).2.

(** How a computation run on the catalog [titles] ends: with a value, or
    with the failure that leaves it. *)
Definition value {A} (m : io A) (titles : Titles) : result A :=
  (m (start titles)).1.

(** [m] reads the catalog and appends to the output, and does nothing
    else: the catalog is left as it was, and neither the way it ends nor
    what is written depends on what was written before. *)
Definition logs {A} (m : io A) : Prop :=
  forall s, m s = ((m (start (catalog s))).1,
                   mkState (catalog s) (output s ++ trace m (catalog s))).

(** ** Well-formed catalogs *)

(** The member [name] of a title, when it is an array, has only elements
    accepted by [elem_ok]; a member that is absent or not an array is
    ignored by the loader. *)
Definition array_member_ok (ms : list (string * Value)) (name : string)
    (elem_ok : Value -> bool) : bool :=
  match lookup_member name ms with
  | Some (kArray l) => forallb elem_ok l
  | _ => true
  end.

Definition has_string_member (ms : list (string * Value)) (name : string) : bool :=
  match lookup_member name ms with
  | Some (kString _) => true
  | _ => false
  end.

Definition update_ok (update : Value) : bool :=
  match update with
  | kObject ms => has_string_member ms "Name" && has_string_member ms "SHA1"
  | _ => false
  end.

Definition archived_ok (archived : Value) : bool :=
  match archived with
  | kObject ms => forallb (fun m => IsString m.2) ms
  | _ => false
  end.

Definition title_ok (title : Value) : bool :=
  match title with
  | kObject ms =>
      array_member_ok ms "Content IDs" IsString
      && array_member_ok ms "Title Updates" update_ok
      && array_member_ok ms "Title Updates Known" update_ok
      && array_member_ok ms "Archived" archived_ok
  | _ => false
  end.

Definition catalog_ok (file : option Value) : bool :=
  match file with
  | Some (kObject ms) =>
      match lookup_member "Titles" ms with
      | Some (kObject titles) => forallb (fun m => title_ok m.2) titles
      | _ => false
      end
  | _ => false
  end.

(** The value has no member [name]. *)
Definition lacks_member (v : Value) (name : string) : bool :=
  match v with
  | kObject ms => if lookup_member name ms is Some _ then false else true
  | _ => true
  end.

Definition update_lacks_field (update : Value) : bool :=
  lacks_member update "Name" || lacks_member update "SHA1".

Definition title_lacks_update_field (title : Value) : bool :=
  match title with
  | kObject ms =>
      negb (array_member_ok ms "Title Updates" (fun u => negb (update_lacks_field u)))
      || negb (array_member_ok ms "Title Updates Known" (fun u => negb (update_lacks_field u)))
  | _ => false
  end.

(** The three conditions the specification gives for a malformed catalog:
    the input is not an object, it has no titles object, or an entry of an
    update list of some title lacks its name or its hash. *)
Definition malformed_by_spec (jsonData : Value) : bool :=
  match jsonData with
  | kObject ms =>
      match lookup_member "Titles" ms with
      | None => true
      | Some (kObject titles) => existsb (fun m => title_lacks_update_field m.2) titles
      | Some _ => true
      end
  | _ => true
  end.

(** ** Scenarios *)

(** The SHA-1 digest of the empty file, as the catalog would list it. *)
Definition sha1_of_empty : string := "da39a3ee5e6b4b0d3255bfef95601890afd80709".

(** A catalog file with the single title [ABCD1234], "Game X", which has
    one content identifier and one known update. *)
Definition catalog_of (contentID : Value) (archived : list Value) (hash : string)
  : Value :=
  kObject [("Titles", kObject [("ABCD1234", kObject [
    ("Title Name", kString "Game X");
    ("Content IDs", kArray [contentID]);
    ("Title Updates", kArray []);
    ("Title Updates Known",
       kArray [kObject [("Name", kString "XYZ: Title Update 2");
                        ("SHA1", kString hash)]]);
    ("Archived", kArray archived)])])].

(** A volume whose only path known to the process is [root], a directory
    with the given listing. *)
Definition volume_at (root : string) (entries : list fs.node)
  : string -> option fs.node :=
  fun path => if String.eqb path root then Some (fs.directory root entries) else None.

(** ** What a well-formed catalog says

    The record a title of the catalog file describes, read off without the
    checks of the loader. *)

Definition string_of (v : Value) : string :=
  match v with
  | kString s => Str.c_str s
  | _ => EmptyString
  end.

(** The elements of the member [name] when it is an array. *)
Definition array_of (ms : list (string * Value)) (name : string) : list Value :=
  match lookup_member name ms with
  | Some (kArray l) => l
  | _ => []
  end.

Definition member_string (v : Value) (name : string) : string :=
  match v with
  | kObject ms =>
      match lookup_member name ms with
      | Some x => string_of x
      | None => EmptyString
      end
  | _ => EmptyString
  end.

Definition update_of (update : Value) : TitleUpdate :=
  mkTitleUpdate (member_string update "Name") (member_string update "SHA1").

(** The pairs of an archived object, a later pair replacing an earlier one
    with the same key. *)
Definition archived_of (archived : Value) : gmap string string :=
  match archived with
  | kObject ms =>
      fold_left (fun m p => <[Str.c_str p.1 := string_of p.2]> m) ms ∅
  | _ => ∅
  end.

Definition record_of (title : Value) : TitleData :=
  match title with
  | kObject ms =>
      mkTitleData
        (match lookup_member "Title Name" ms with
         | Some (kString s) => Str.c_str s
         | _ => EmptyString
         end)
        (map string_of (array_of ms "Content IDs"))
        (map update_of (array_of ms "Title Updates"))
        (map update_of (array_of ms "Title Updates Known"))
        (map archived_of (array_of ms "Archived"))
  | _ => TitleData_default
  end.

(** The value of a hexadecimal digit as [hex_digit] writes it. *)
Definition hex_value (c : ascii) : N :=
  let n := N_of_ascii c in
  if (n <? 58)%N then (n - 48)%N else (n - 87)%N.

(** The characters of the digest text. *)
Definition hex_digits : list ascii := list_ascii_of_string "0123456789abcdef".

(** The same tree with every regular file made unreadable. *)
Fixpoint forget_contents (n : fs.node) : fs.node :=
  match n with
  | fs.directory name entries => fs.directory name (map forget_contents entries)
  | fs.locked_directory name entries =>
      fs.locked_directory name (map forget_contents entries)
  | fs.regular_file name _ => fs.regular_file name fs.unreadable
  | fs.other name => fs.other name
  end.

(** The same record without its list [TitleUpdates]. *)
Definition without_updates (data : TitleData) : TitleData :=
  mkTitleData (TitleName data) (ContentIDs data) [] (TitleUpdatesKnown data)
    (Archived data).

(** The entry is a regular file that the loop over [$u] hashes. *)
Definition selected (file : fs.node) : bool :=
  fs.is_regular_file file && known_suffix (fs.extension (fs.filename file)).

(** The listing of a title folder has a directory called [name]. *)
Definition has_directory (entry : fs.node) (name : string) : bool :=
  match fs.lookup name (fs.entries entry) with
  | Some n => fs.is_directory n
  | None => false
  end.

(** The reports that an area of a title folder is missing. *)
Definition is_absence_report (e : event) : bool :=
  match e with
  | NoDLCFound _ | NoTitleUpdates _ => true
  | _ => false
  end.

(** How the process ends when [main] is left with [r]: by its return, or
    by an exception that nothing catches. *)
Definition ending (r : result exit_status) : exit_status :=
  match r with
  | inr status => status
  | inl _ => aborted
  end.

(** The value of the last argument [-titleid=...], the empty string when
    there is none. *)
Definition last_titleid (args : list string) : string :=
  fold_left (fun id arg =>
               if String.prefix "-titleid=" arg then Str.substr 9 arg else id)
            args EmptyString.
(** ** The scan only reads the catalog and writes *)

Lemma logs_start {A} (m : io A) t :
  logs m -> m (start t) = (value m t, mkState t (trace m t)).
Proof. intros Hm. exact (Hm (start t)). Qed.

Lemma logs_ret {A} (a : A) : logs (mret a).
Proof.
  intros [c o]. unfold trace, start, mret, io_ret. simpl.
  by rewrite app_nil_r.
Qed.

Lemma logs_lift {A} (r : result A) : logs (lift r).
Proof.
  intros [c o]. unfold trace, start, lift. simpl.
  by rewrite app_nil_r.
Qed.

Lemma logs_emit e : logs (emit e).
Proof. intros [c o]. reflexivity. Qed.

Lemma logs_Titles_find k : logs (Titles_find k).
Proof.
  intros [c o]. unfold trace, start, Titles_find. simpl.
  by rewrite app_nil_r.
Qed.

Lemma logs_bind {A B} (m : io A) (k : A -> io B) :
  logs m -> (forall a, logs (k a)) -> logs (m ≫= k).
Proof.
  intros Hm Hk s. unfold trace, mbind, io_bind.
  rewrite (Hm s), (logs_start m (catalog s) Hm).
  destruct (value m (catalog s)) as [e|a]; simpl; [done|].
  rewrite (Hk _ (mkState _ (output s ++ _))), (Hk _ (mkState _ (trace m _))).
  simpl. by rewrite app_assoc.
Qed.

Lemma trace_ret {A} (a : A) t : trace (mret a) t = [].
Proof. reflexivity. Qed.

Lemma trace_lift {A} (r : result A) t : trace (lift r) t = [].
Proof. reflexivity. Qed.

Lemma trace_emit e t : trace (emit e) t = [e].
Proof. reflexivity. Qed.

Lemma value_ret {A} (a : A) t : value (mret a) t = inr a.
Proof. reflexivity. Qed.

Lemma value_lift {A} (r : result A) t : value (lift r) t = r.
Proof. reflexivity. Qed.

Lemma value_emit e t : value (emit e) t = inr tt.
Proof. reflexivity. Qed.

(** A computation that fails leaves what follows it undone. *)
Lemma trace_bind {A B} (m : io A) (k : A -> io B) t :
  logs m -> (forall a, logs (k a)) ->
  trace (m ≫= k) t
  = trace m t ++ match value m t with
                 | inr a => trace (k a) t
                 | inl _ => []
                 end.
Proof.
  intros Hm Hk. unfold trace at 1. unfold mbind, io_bind.
  rewrite (logs_start m t Hm).
  destruct (value m t) as [e|a]; simpl; [by rewrite app_nil_r|].
  rewrite Hk. reflexivity.
Qed.

Lemma value_bind {A B} (m : io A) (k : A -> io B) t :
  logs m -> (forall a, logs (k a)) ->
  value (m ≫= k) t
  = match value m t with
    | inr a => value (k a) t
    | inl e => inl e
    end.
Proof.
  intros Hm Hk. unfold value at 1. unfold mbind, io_bind.
  rewrite (logs_start m t Hm).
  destruct (value m t) as [e|a]; simpl; [done|].
  rewrite Hk. reflexivity.
Qed.

Lemma logs_catalog {A} (m : io A) s : logs m -> catalog (m s).2 = catalog s.
Proof. intros Hm. by rewrite Hm. Qed.

Lemma logs_output {A} (m : io A) s :
  logs m -> output (m s).2 = output s ++ trace m (catalog s).
Proof. intros Hm. by rewrite Hm. Qed.

Lemma logs_value {A} (m : io A) s : logs m -> (m s).1 = value m (catalog s).
Proof. intros Hm. by rewrite Hm. Qed.

Lemma logs_for_each {A} (l : list A) (body : A -> io unit) :
  (forall a, logs (body a)) -> logs (for_each l body).
Proof.
  intros Hb. induction l as [|a l IH]; simpl.
  - apply logs_ret.
  - apply logs_bind; auto.
Qed.

(** *** Loops *)

Lemma trace_for_each_cons {A} (a : A) l (body : A -> io unit) t :
  (forall a, logs (body a)) ->
  trace (for_each (a :: l) body) t
  = trace (body a) t ++ match value (body a) t with
                        | inr _ => trace (for_each l body) t
                        | inl _ => []
                        end.
Proof.
  intros Hb. simpl. rewrite trace_bind; auto using logs_for_each.
Qed.

Lemma value_for_each_cons {A} (a : A) l (body : A -> io unit) t :
  (forall a, logs (body a)) ->
  value (for_each (a :: l) body) t
  = match value (body a) t with
    | inr _ => value (for_each l body) t
    | inl e => inl e
    end.
Proof.
  intros Hb. simpl. rewrite value_bind; auto using logs_for_each.
Qed.

(** A loop over two ranges in a row: the second is run when the first
    completes. *)
Lemma trace_for_each_app {A} (l1 l2 : list A) (body : A -> io unit) t :
  (forall a, logs (body a)) ->
  trace (for_each (l1 ++ l2) body) t
  = trace (for_each l1 body) t ++ match value (for_each l1 body) t with
                                  | inr _ => trace (for_each l2 body) t
                                  | inl _ => []
                                  end.
Proof.
  intros Hb. induction l1 as [|a l1 IH].
  - reflexivity.
  - rewrite <- app_comm_cons, !trace_for_each_cons, value_for_each_cons by done.
    destruct (value (body a) t) as [e|[]]; [by rewrite !app_nil_r|].
    by rewrite IH, app_assoc.
Qed.

Lemma value_for_each_app {A} (l1 l2 : list A) (body : A -> io unit) t :
  (forall a, logs (body a)) ->
  value (for_each (l1 ++ l2) body) t
  = match value (for_each l1 body) t with
    | inr _ => value (for_each l2 body) t
    | inl e => inl e
    end.
Proof.
  intros Hb. induction l1 as [|a l1 IH].
  - reflexivity.
  - rewrite <- app_comm_cons, !value_for_each_cons by done.
    by destruct (value (body a) t) as [e|[]].
Qed.

(** A loop whose body cannot fail runs over the whole range. *)
Lemma value_for_each {A} (l : list A) (body : A -> io unit) t :
  (forall a, logs (body a)) ->
  (forall a, a ∈ l -> value (body a) t = inr tt) ->
  value (for_each l body) t = inr tt.
Proof.
  intros Hb Hv. induction l as [|a l IH]; [done|].
  rewrite value_for_each_cons, Hv by (done || left).
  apply IH. intros b Hin. apply Hv. by right.
Qed.

Lemma trace_for_each {A} (l : list A) (body : A -> io unit) t :
  (forall a, logs (body a)) ->
  (forall a, a ∈ l -> value (body a) t = inr tt) ->
  trace (for_each l body) t = flat_map (fun a => trace (body a) t) l.
Proof.
  intros Hb Hv. induction l as [|a l IH]; [done|].
  rewrite trace_for_each_cons, Hv by (done || left). simpl.
  rewrite IH; [done|]. intros b Hin. apply Hv. by right.
Qed.

(** What holds of everything a body writes holds of everything the loop
    writes. *)
Lemma Forall_trace_for_each {A} (P : event -> Prop) (l : list A)
    (body : A -> io unit) t :
  (forall a, logs (body a)) ->
  (forall a, a ∈ l -> Forall P (trace (body a) t)) ->
  Forall P (trace (for_each l body) t).
Proof.
  intros Hb HP. induction l as [|a l IH]; [constructor|].
  rewrite trace_for_each_cons by done. apply Forall_app. split.
  - apply HP. left.
  - destruct (value (body a) t); [constructor|].
    apply IH. intros b Hin. apply HP. by right.
Qed.

(** Two loops whose bodies agree run alike. *)
Lemma for_each_agree {A B} (l1 : list A) (l2 : list B)
    (body1 : A -> io unit) (body2 : B -> io unit) t1 t2 :
  (forall a, logs (body1 a)) -> (forall b, logs (body2 b)) ->
  Forall2 (fun a b => value (body1 a) t1 = value (body2 b) t2
                      /\ trace (body1 a) t1 = trace (body2 b) t2) l1 l2 ->
  value (for_each l1 body1) t1 = value (for_each l2 body2) t2
  /\ trace (for_each l1 body1) t1 = trace (for_each l2 body2) t2.
Proof.
  intros H1 H2 Hall. induction Hall as [|a b l1 l2 [Hv Ht] _ [IHv IHt]]; [done|].
  rewrite !value_for_each_cons, !trace_for_each_cons by done.
  rewrite Hv, Ht, IHv, IHt. done.
Qed.

Lemma for_each_pointwise {A} (l : list A) (body1 body2 : A -> io unit) t1 t2 :
  (forall a, logs (body1 a)) -> (forall a, logs (body2 a)) ->
  (forall a, a ∈ l -> value (body1 a) t1 = value (body2 a) t2
                      /\ trace (body1 a) t1 = trace (body2 a) t2) ->
  value (for_each l body1) t1 = value (for_each l body2) t2
  /\ trace (for_each l body1) t1 = trace (for_each l body2) t2.
Proof.
  intros H1 H2 Hall. apply for_each_agree; [done..|].
  apply Forall_Forall2_diag, Forall_forall. exact Hall.
Qed.

Lemma for_each_map {A B} (f : A -> B) (l : list A) (body : B -> io unit) :
  for_each (map f l) body = for_each l (fun a => body (f a)).
Proof. induction l as [|a l IH]; simpl; [done|]. by rewrite IH. Qed.

(** A loop that runs to its end has run every body to its end. *)
Lemma trace_for_each_complete {A} (l : list A) (body : A -> io unit) t :
  (forall a, logs (body a)) ->
  value (for_each l body) t = inr tt ->
  trace (for_each l body) t = flat_map (fun a => trace (body a) t) l.
Proof.
  intros Hb. induction l as [|a l IH]; [done|].
  rewrite value_for_each_cons, trace_for_each_cons by done.
  destruct (value (body a) t) as [e|[]]; [done|].
  intros Hv. simpl. by rewrite IH.
Qed.

(** A body that fails ends the loop: the entries after it are not visited. *)
Lemma for_each_fails {A} (l1 l2 : list A) (a : A) (body : A -> io unit) t e :
  (forall a, logs (body a)) ->
  value (for_each l1 body) t = inr tt ->
  value (body a) t = inl e ->
  value (for_each (l1 ++ a :: l2) body) t = inl e
  /\ trace (for_each (l1 ++ a :: l2) body) t
     = trace (for_each l1 body) t ++ trace (body a) t.
Proof.
  intros Hb H1 Ha.
  rewrite value_for_each_app, trace_for_each_app, H1 by done.
  rewrite value_for_each_cons, trace_for_each_cons, Ha by done.
  by rewrite app_nil_r.
Qed.

(** Entries on which the body does nothing may be left out of the range. *)
Lemma for_each_filter {A} (p : A -> bool) (l : list A) (body : A -> io unit) t :
  (forall a, logs (body a)) ->
  (forall a, p a = false -> value (body a) t = inr tt /\ trace (body a) t = []) ->
  value (for_each (List.filter p l) body) t = value (for_each l body) t
  /\ trace (for_each (List.filter p l) body) t = trace (for_each l body) t.
Proof.
  intros Hb Hskip. induction l as [|a l [IHv IHt]]; [done|].
  simpl List.filter. destruct (p a) eqn:Hp.
  - rewrite !value_for_each_cons, !trace_for_each_cons by done.
    by rewrite IHv, IHt.
  - rewrite (value_for_each_cons a l), (trace_for_each_cons a l) by done.
    destruct (Hskip a Hp) as [-> ->]. done.
Qed.

Create HintDb logs.
#[local] Hint Resolve logs_ret logs_lift logs_emit logs_Titles_find
  logs_for_each : logs.

Ltac logs_step :=
  match goal with
  | |- logs (mbind _ _) => apply logs_bind; [|intros ?]
  | |- logs (if ?b then _ else _) => destruct b
  | |- logs (match ?x with _ => _ end) => destruct x
  | |- forall _, _ => intros ?
  | |- _ => solve [auto with logs]
  end.

Ltac solve_logs := repeat logs_step.

Lemma logs_check_content_file file : logs (check_content_file file).
Proof. unfold check_content_file. solve_logs. Qed.

Lemma logs_check_subContent WIN32 data subDirDLC subContent :
  logs (check_subContent WIN32 data subDirDLC subContent).
Proof.
  unfold check_subContent. pose proof logs_check_content_file. solve_logs.
Qed.

Lemma logs_match_known known data titleID filePath fileHash :
  logs (match_known known data titleID filePath fileHash).
Proof. induction known as [|u known IH]; simpl; solve_logs. Qed.

Lemma logs_check_update_file WIN32 data titleID subDirUpdates file :
  logs (check_update_file WIN32 data titleID subDirUpdates file).
Proof.
  unfold check_update_file. pose proof logs_match_known. solve_logs.
Qed.

Lemma logs_check_dlc WIN32 data titleID entry_path entry :
  logs (check_dlc WIN32 data titleID entry_path entry).
Proof. unfold check_dlc. pose proof logs_check_subContent. solve_logs. Qed.

Lemma logs_check_updates WIN32 data titleID entry_path entry :
  logs (check_updates WIN32 data titleID entry_path entry).
Proof. unfold check_updates. pose proof logs_check_update_file. solve_logs. Qed.

Lemma logs_check_entry WIN32 directory entry :
  logs (check_entry WIN32 directory entry).
Proof.
  unfold check_entry. pose proof logs_check_dlc. pose proof logs_check_updates.
  solve_logs.
Qed.

#[local] Hint Resolve logs_check_content_file logs_check_subContent
  logs_match_known logs_check_update_file logs_check_dlc logs_check_updates
  logs_check_entry : logs.

Lemma logs_checkForContent WIN32 volume directory :
  logs (checkForContent WIN32 volume directory).
Proof. unfold checkForContent. solve_logs. Qed.

(** *** Steps that cannot fail *)

Lemma value_check_content_file file t :
  value (check_content_file file) t = inr tt.
Proof.
  unfold check_content_file.
  destruct (fs.is_regular_file file); [|done]. by destruct (known_suffix _).
Qed.

Lemma value_match_known known data titleID filePath fileHash t :
  exists found, value (match_known known data titleID filePath fileHash) t = inr found.
Proof.
  induction known as [|u known IH]; simpl; [by exists false|].
  destruct (String.eqb _ _); [by exists true|done].
Qed.

(** Classifying a file of [$u] always completes: the failure of the
    digest is caught. *)
Lemma value_check_update_file WIN32 data titleID subDirUpdates file t :
  value (check_update_file WIN32 data titleID subDirUpdates file) t = inr tt.
Proof.
  unfold check_update_file. destruct file as [| |name contents|]; try done.
  cbv zeta. destruct (known_suffix _); [|done].
  destruct (getSHA1Hash _ _) as [e|fileHash]; [done|].
  rewrite value_bind by solve_logs.
  destruct (value_match_known (TitleUpdatesKnown data) data titleID
              (fs.append WIN32 subDirUpdates name) fileHash t) as [found ->].
  by destruct found.
Qed.

Lemma trace_content_files files t :
  trace (for_each files check_content_file) t
  = flat_map (fun file => trace (check_content_file file) t) files.
Proof.
  apply trace_for_each; [apply logs_check_content_file|].
  intros. apply value_check_content_file.
Qed.

Lemma trace_update_files WIN32 data titleID subDirUpdates files t :
  trace (for_each files (check_update_file WIN32 data titleID subDirUpdates)) t
  = flat_map (fun file =>
                trace (check_update_file WIN32 data titleID subDirUpdates file) t)
      files.
Proof.
  apply trace_for_each; [apply logs_check_update_file|].
  intros. apply value_check_update_file.
Qed.

Lemma value_update_files WIN32 data titleID subDirUpdates files t :
  value (for_each files (check_update_file WIN32 data titleID subDirUpdates)) t
  = inr tt.
Proof.
  apply value_for_each; [apply logs_check_update_file|].
  intros. apply value_check_update_file.
Qed.

(** A step that writes one event, and what follows it. *)
Ltac after_emit :=
  rewrite trace_bind by solve_logs; rewrite trace_emit, value_emit; cbn [app].

(** How the scan of a content folder ends is decided by its listing
    alone, and only when it is reached. *)
Lemma value_check_subContent WIN32 data subDirDLC subContent t :
  value (check_subContent WIN32 data subDirDLC subContent) t
  = if fs.is_directory subContent then
      let contentID := Str.transform Str.tolower (fs.filename subContent) in
      let path := fs.append WIN32 subDirDLC (fs.filename subContent) in
      if contains (ContentIDs data) contentID
         && String.eqb (find_archived (Archived data) contentID) EmptyString
      then _ ← fs.directory_iterator path subContent; ok tt
      else ok tt
    else ok tt.
Proof.
  unfold check_subContent. destruct (fs.is_directory subContent); [|done].
  cbv zeta. rewrite value_bind by (pose proof logs_check_content_file; solve_logs).
  rewrite value_emit. destruct (contains _ _); [|done]. simpl andb.
  rewrite value_bind by (pose proof logs_check_content_file; solve_logs).
  rewrite value_emit.
  destruct (String.eqb _ _); simpl negb; cbv iota; [|done].
  rewrite value_bind by (pose proof logs_check_content_file; solve_logs).
  rewrite value_emit.
  rewrite value_bind by (pose proof logs_check_content_file; solve_logs).
  rewrite value_lift.
  destruct (fs.directory_iterator _ _) as [e|files]; [done|].
  simpl. apply value_for_each; [solve_logs|].
  intros. apply value_check_content_file.
Qed.

(** What the scan of one root entry writes. *)
Lemma trace_check_entry WIN32 directory entry t :
  trace (check_entry WIN32 directory entry) t =
    if fs.is_directory entry && (String.length (fs.filename entry) =? 8) then
      let titleID := Str.transform Str.tolower (fs.filename entry) in
      let entry_path := fs.append WIN32 directory (fs.filename entry) in
      match Titles_map t !! titleID with
      | Some data =>
          FoundFolder (TitleName data)
          :: trace (check_dlc WIN32 data titleID entry_path entry) t
          ++ match value (check_dlc WIN32 data titleID entry_path entry) t with
             | inr _ => trace (check_updates WIN32 data titleID entry_path entry) t
             | inl _ => []
             end
      | None => [TitleNotPresent titleID directory]
      end
    else [].
Proof.
  unfold check_entry. destruct (_ && _); [|done].
  rewrite trace_bind; [|solve_logs..]. simpl.
  destruct (Titles_map t !! _) as [data|]; [|done].
  rewrite trace_bind; [|solve_logs..]. simpl.
  rewrite trace_bind; [|solve_logs..]. done.
Qed.

Lemma value_check_entry WIN32 directory entry t :
  value (check_entry WIN32 directory entry) t =
    if fs.is_directory entry && (String.length (fs.filename entry) =? 8) then
      let titleID := Str.transform Str.tolower (fs.filename entry) in
      let entry_path := fs.append WIN32 directory (fs.filename entry) in
      match Titles_map t !! titleID with
      | Some data =>
          match value (check_dlc WIN32 data titleID entry_path entry) t with
          | inr _ => value (check_updates WIN32 data titleID entry_path entry) t
          | inl e => inl e
          end
      | None => inr tt
      end
    else inr tt.
Proof.
  unfold check_entry. destruct (_ && _); [|done].
  rewrite value_bind; [|solve_logs..]. simpl.
  destruct (Titles_map t !! _) as [data|]; [|done].
  rewrite value_bind; [|solve_logs..]. simpl.
  rewrite value_bind; [|solve_logs..]. done.
Qed.

Lemma trace_checkForContent WIN32 volume directory t :
  trace (checkForContent WIN32 volume directory) t =
    match volume directory with
    | None => [DirectoryNotFound directory]
    | Some root =>
        match fs.directory_iterator directory root with
        | inr entries => trace (for_each entries (check_entry WIN32 directory)) t
        | inl _ => []
        end
    end.
Proof.
  unfold checkForContent. destruct (volume directory); [|done].
  rewrite trace_bind by solve_logs. rewrite value_lift, trace_lift. done.
Qed.

Lemma value_checkForContent WIN32 volume directory t :
  value (checkForContent WIN32 volume directory) t =
    match volume directory with
    | None => inr tt
    | Some root =>
        match fs.directory_iterator directory root with
        | inr entries => value (for_each entries (check_entry WIN32 directory)) t
        | inl e => inl e
        end
    end.
Proof.
  unfold checkForContent. destruct (volume directory); [|done].
  rewrite value_bind by solve_logs. rewrite value_lift. done.
Qed.

(** ** Catalog construction *)

Lemma succeeds_bind {A B} (m : result A) (k : A -> result B) :
  succeeds (m ≫= k) = match m with inr a => succeeds (k a) | inl _ => false end.
Proof. by destruct m. Qed.

Lemma forallb_pointwise {A} (f g : A -> bool) l :
  (forall a, f a = g a) -> forallb f l = forallb g l.
Proof. intros H. induction l as [|a l IH]; simpl; [done|]. by rewrite H, IH. Qed.

Lemma succeeds_rmap {A B} (f : A -> result B) l :
  succeeds (rmap f l) = forallb (fun a => succeeds (f a)) l.
Proof.
  induction l as [|a l IH]; simpl; [done|].
  destruct (f a) as [e|b]; simpl; [done|].
  rewrite <- IH. by destruct (rmap f l).
Qed.

Lemma succeeds_rfold {A S} (f : S -> A -> result S) (p : A -> bool) l :
  (forall s a, succeeds (f s a) = p a) ->
  forall s, succeeds (rfold f s l) = forallb p l.
Proof.
  intros Hf. induction l as [|a l IH]; intros s; simpl; [done|].
  rewrite <- (Hf s a). destruct (f s a) as [e|s']; simpl; [done|]. apply IH.
Qed.

Lemma member_if_object ms name p :
  member_if (kObject ms) name p =
    ok (match lookup_member name ms with
        | Some v => if p v then Some v else None
        | None => None
        end).
Proof.
  unfold member_if, HasMember, at_, FindMember. simpl.
  by destruct (lookup_member name ms).
Qed.

Lemma succeeds_load_update update : succeeds (load_update update) = update_ok update.
Proof.
  destruct update as [| | | |l|ms]; try reflexivity.
  unfold load_update, at_, update_ok, has_string_member. simpl.
  destruct (lookup_member "Name" ms) as [[]|]; try reflexivity; simpl.
  destruct (lookup_member "SHA1" ms) as [[]|]; reflexivity.
Qed.

Lemma succeeds_load_archived archived :
  succeeds (load_archived archived) = archived_ok archived.
Proof.
  destruct archived as [| | | |l|ms]; try reflexivity.
  unfold load_archived, archived_ok. simpl.
  apply succeeds_rfold. intros s [name value]. by destruct value.
Qed.

Lemma succeeds_array_member ms name {B} (f : Value -> result B) elem_ok :
  (forall v, succeeds (f v) = elem_ok v) ->
  succeeds (if (match lookup_member name ms with
                | Some v => if IsArray v then Some v else None
                | None => None
                end) is Some v
            then l ← GetArray v; rmap f l else ok []) =
  array_member_ok ms name elem_ok.
Proof.
  intros Hf. unfold array_member_ok.
  destruct (lookup_member name ms) as [[]|]; try reflexivity. simpl.
  rewrite succeeds_rmap. by apply forallb_pointwise.
Qed.

Lemma succeeds_load_title title : succeeds (load_title title) = title_ok title.
Proof.
  destruct title as [| | | |l|ms]; try reflexivity.
  unfold load_title, title_ok. rewrite !member_if_object.
  change (ok ?x ≫= ?k) with (k x). cbv beta.
  assert (Hname : exists n,
    (if (match lookup_member "Title Name" ms with
         | Some v => if IsString v then Some v else None
         | None => None
         end) is Some v then GetString v else ok "") = ok n).
  { destruct (lookup_member "Title Name" ms) as [[]|]; simpl; eauto. }
  destruct Hname as [n ->]. change (ok ?x ≫= ?k) with (k x). cbv beta.
  rewrite <- (succeeds_array_member ms "Content IDs" GetString IsString)
    by (by intros []).
  rewrite <- (succeeds_array_member ms "Title Updates" load_update update_ok)
    by apply succeeds_load_update.
  rewrite <- (succeeds_array_member ms "Title Updates Known" load_update update_ok)
    by apply succeeds_load_update.
  rewrite <- (succeeds_array_member ms "Archived" load_archived archived_ok)
    by apply succeeds_load_archived.
  repeat match goal with
  | |- context [(?m ≫= _)] =>
      lazymatch m with
      | ok _ => change (ok ?x ≫= ?k) with (k x); cbv beta
      | _ => destruct m as [?|?] eqn:?; simpl
      end
  end; try reflexivity.
Qed.

Lemma succeeds_loadJSONData file titles :
  succeeds (loadJSONData file titles) = catalog_ok file.
Proof.
  destruct file as [[| | | |l|ms]|]; try reflexivity.
  unfold loadJSONData, catalog_ok, at_. simpl.
  destruct (lookup_member "Titles" ms) as [[| | | |l|tms]|]; try reflexivity.
  simpl. unfold load_titles.
  apply (succeeds_rfold _ (fun m => title_ok m.2)). intros s [name title].
  rewrite succeeds_bind. simpl. rewrite <- succeeds_load_title.
  by destruct (load_title title).
Qed.

Lemma update_ok_has_fields update :
  update_ok update = true -> update_lacks_field update = false.
Proof.
  destruct update as [| | | |l|ms]; try discriminate.
  unfold update_ok, update_lacks_field, has_string_member, lacks_member.
  destruct (lookup_member "Name" ms) as [[]|]; try discriminate.
  destruct (lookup_member "SHA1" ms) as [[]|]; try discriminate.
  reflexivity.
Qed.

Lemma array_member_ok_mono ms name (p q : Value -> bool) :
  (forall v, p v = true -> q v = true) ->
  array_member_ok ms name p = true -> array_member_ok ms name q = true.
Proof.
  intros Hpq. unfold array_member_ok.
  destruct (lookup_member name ms) as [[| | | |l|]|]; try done.
  rewrite !forallb_forall. auto.
Qed.

Lemma title_ok_has_fields title :
  title_ok title = true -> title_lacks_update_field title = false.
Proof.
  destruct title as [| | | |l|ms]; try discriminate.
  unfold title_ok, title_lacks_update_field.
  rewrite !andb_true_iff. intros [[[_ Hu] Hk] _].
  assert (Hmono : forall v, update_ok v = true -> negb (update_lacks_field v) = true).
  { intros v Hv. by rewrite update_ok_has_fields. }
  rewrite (array_member_ok_mono _ _ _ _ Hmono Hu).
  by rewrite (array_member_ok_mono _ _ _ _ Hmono Hk).
Qed.

Lemma malformed_by_spec_not_ok jsonData :
  malformed_by_spec jsonData = true -> catalog_ok (Some jsonData) = false.
Proof.
  destruct jsonData as [| | | |l|ms]; try reflexivity.
  unfold malformed_by_spec, catalog_ok.
  destruct (lookup_member "Titles" ms) as [[| | | |l|tms]|]; try reflexivity.
  rewrite existsb_exists. intros [[name title] [Hin Hlacks]].
  apply not_true_is_false. rewrite forallb_forall. intros Hall.
  specialize (Hall _ Hin). simpl in *.
  apply title_ok_has_fields in Hall. congruence.
Qed.

Lemma load_titles_keeps tms : forall titles titles' k,
  load_titles titles tms = inr titles' ->
  is_Some (Titles_map titles !! k) -> is_Some (Titles_map titles' !! k).
Proof.
  unfold load_titles.
  induction tms as [|[name title] tms IH]; intros titles titles' k; simpl.
  - by intros [= <-].
  - destruct (load_title title) as [e|data]; simpl; [done|].
    intros Hrest Hk. apply (IH _ _ _ Hrest). simpl.
    rewrite lookup_insert_is_Some. destruct (decide (title_key name = k)); auto.
Qed.

(** Every member of [Titles] gets a record, and every record of the catalog
    was there before the loop or was built from a member stored under its
    key. *)
Lemma load_titles_populates tms : forall titles titles',
  load_titles titles tms = inr titles' ->
  (forall name title, (name, title) ∈ tms ->
     is_Some (Titles_map titles' !! title_key name))
  /\ (forall k data, Titles_map titles' !! k = Some data ->
        Titles_map titles !! k = Some data
        \/ exists name title, (name, title) ∈ tms /\ k = title_key name
                              /\ load_title title = inr data).
Proof.
  unfold load_titles.
  induction tms as [|[name title] tms IH]; intros titles titles'; simpl.
  - intros [= <-]. split; [intros ? ? H; by apply elem_of_nil in H | auto].
  - destruct (load_title title) as [e|data] eqn:Hload; simpl; [done|].
    intros Hrest. destruct (IH _ _ Hrest) as [Hdom Hrec]. split.
    + intros n t [[= -> ->]|Hin]%elem_of_cons; [|eauto].
      apply (load_titles_keeps _ _ _ _ Hrest). simpl.
      rewrite lookup_insert_eq. eauto.
    + intros k d Hk. destruct (Hrec _ _ Hk) as [Hold|(n & t & Hin & -> & Hl)].
      * simpl in Hold. destruct (decide (title_key name = k)) as [<-|Hne].
        -- rewrite lookup_insert_eq in Hold. injection Hold as <-.
           right. exists name, title. split; [left|done].
        -- rewrite lookup_insert_ne in Hold by done. by left.
      * right. exists n, t. split; [by right|done].
Qed.

Lemma loadJSONData_inv file titles titles' :
  loadJSONData file titles = inr titles' ->
  exists ms tms,
    file = Some (kObject ms)
    /\ lookup_member "Titles" ms = Some (kObject tms)
    /\ load_titles titles tms = inr titles'.
Proof.
  destruct file as [[| | | |l|ms]|]; try discriminate.
  unfold loadJSONData, at_. simpl.
  destruct (lookup_member "Titles" ms) as [[| | | |l|tms]|] eqn:Ht; try discriminate.
  simpl. intros H. by exists ms, tms.
Qed.

(** ** Strings *)




Lemma append_cons x a b : String x a +:+ b = String x (a +:+ b).
Proof. reflexivity. Qed.


Lemma length_append a b : String.length (a +:+ b) = String.length a + String.length b.
Proof. induction a as [|x a IH]; [done|]. rewrite append_cons. simpl. by rewrite IH. Qed.



Lemma tolower_idempotent c : Str.tolower (Str.tolower c) = Str.tolower c.
Proof. by destruct c as [[] [] [] [] [] [] [] []]. Qed.

Lemma transform_tolower_idempotent s :
  Str.transform Str.tolower (Str.transform Str.tolower s) = Str.transform Str.tolower s.
Proof. induction s as [|c s IH]; simpl; [done|]. by rewrite tolower_idempotent, IH. Qed.

Lemma contains_elem_of vec val : contains vec val = true <-> val ∈ vec.
Proof.
  induction vec as [|x vec IH]; simpl.
  - split; [done|]. by intros ?%elem_of_nil.
  - rewrite elem_of_cons. destruct (String.eqb_spec x val) as [->|Hne].
    + split; auto.
    + rewrite IH. split; [auto|]. intros [|]; [congruence|done].
Qed.

(** ** The loops of the scan *)

Lemma match_known_run known data titleID filePath fileHash s :
  match_known known data titleID filePath fileHash s =
    match List.find (fun u => String.eqb fileHash (SHA1 u)) known with
    | Some u =>
        (inr true, mkState (catalog s)
                     (output s ++ [TitleUpdateFound (TitleName data) titleID
                                     (display_name (Name u)) filePath fileHash]))
    | None => (inr false, s)
    end.
Proof.
  induction known as [|u known IH]; simpl; [done|].
  destruct (String.eqb fileHash (SHA1 u)); [done|apply IH].
Qed.

Lemma trace_check_update_file_hashed WIN32 data titleID subDirUpdates name contents
    fileHash t :
  known_suffix (fs.extension name) = true ->
  getSHA1Hash contents (fs.append WIN32 subDirUpdates name) = inr fileHash ->
  trace (check_update_file WIN32 data titleID subDirUpdates
           (fs.regular_file name contents)) t =
    match List.find (fun u => String.eqb fileHash (SHA1 u)) (TitleUpdatesKnown data) with
    | Some u => [TitleUpdateFound (TitleName data) titleID (display_name (Name u))
                   (fs.append WIN32 subDirUpdates name) fileHash]
    | None => [NoHashMatch name fileHash (fs.append WIN32 subDirUpdates name)]
    end.
Proof.
  intros Hext Hhash. unfold trace, check_update_file. simpl.
  rewrite Hext, Hhash. unfold mbind, io_bind. rewrite match_known_run.
  by destruct (List.find _ _).
Qed.



Lemma find_archived_first before a after contentID label :
  (forall b, b ∈ before -> b !! contentID = None) ->
  a !! contentID = Some label ->
  find_archived (before ++ a :: after) contentID = label.
Proof.
  intros Hb Ha. induction before as [|b before IH]; simpl.
  - by rewrite Ha.
  - rewrite (Hb b) by left. apply IH. intros b' Hb'. apply Hb. by right.
Qed.

Lemma known_suffix_spec extension :
  known_suffix extension = true <-> extension = ".xbe" \/ extension = ".xbx".
Proof.
  unfold known_suffix. rewrite orb_true_iff, !String.eqb_eq. tauto.
Qed.

Lemma hex_byte_lower b : Str.transform Str.tolower (hex_byte b) = hex_byte b.
Proof. by destruct b. Qed.

Lemma transform_app f a b :
  Str.transform f (a +:+ b) = Str.transform f a +:+ Str.transform f b.
Proof. induction a as [|c a IH]; [done|]. rewrite append_cons. simpl. by rewrite IH. Qed.

Lemma hex_string_cons b hash : hex_string (b :: hash) = hex_byte b +:+ hex_string hash.
Proof. reflexivity. Qed.

Lemma hex_string_lower hash :
  Str.transform Str.tolower (hex_string hash) = hex_string hash.
Proof.
  induction hash as [|b hash IH]; [done|].
  by rewrite hex_string_cons, transform_app, hex_byte_lower, IH.
Qed.

Lemma hex_string_length hash : String.length (hex_string hash) = 2 * length hash.
Proof.
  induction hash as [|b hash IH]; [done|].
  rewrite hex_string_cons, length_append, IH. simpl. lia.
Qed.

Lemma length_SHA1_Final c : length (SHA.SHA1_Final c) = SHA_DIGEST_LENGTH.
Proof.
  unfold SHA.SHA1_Final.
  by destruct (SHA.blocks _ _ _).1 as [[[[h0 h1] h2] h3] h4].
Qed.

Lemma getSHA1Hash_readable bytes filePath :
  getSHA1Hash (fs.readable bytes) filePath = inr (hex_string (hash_file bytes)).
Proof. reflexivity. Qed.

Lemma getSHA1Hash_length contents filePath fileHash :
  getSHA1Hash contents filePath = inr fileHash -> String.length fileHash = 40.
Proof.
  destruct contents as [|bytes]; [discriminate|].
  rewrite getSHA1Hash_readable. intros [= <-].
  rewrite hex_string_length. unfold hash_file.
  destruct (read_loop _ _ _) as [sha1 rest]. by rewrite length_SHA1_Final.
Qed.

Lemma getSHA1Hash_lower contents filePath fileHash :
  getSHA1Hash contents filePath = inr fileHash ->
  Str.transform Str.tolower fileHash = fileHash.
Proof.
  destruct contents as [|bytes]; [discriminate|].
  rewrite getSHA1Hash_readable. intros [= <-]. apply hex_string_lower.
Qed.

(** The digests of FIPS 180-4's examples and of files around the size of
    the read buffer. *)
Example hash_of_empty_file : hex_string (hash_file []) = sha1_of_empty.
Proof. vm_compute. reflexivity. Qed.

Example hash_of_abc :
  hex_string (hash_file [x61; x62; x63]) = "a9993e364706816aba3e25717850c26c9cd0d89d".
Proof. vm_compute. reflexivity. Qed.

Example hash_of_two_blocks :
  hex_string (hash_file (list_byte_of_string
    "abcdbcdecdefdefgefghfghighijhijkijkljklmklmnlmnomnopnopq"))
  = "84983e441c3bd26ebaae4aa1f95129e5e54670f1".
Proof. vm_compute. reflexivity. Qed.

Example hash_of_one_buffer :
  hex_string (hash_file (repeat x61 buffer_size))
  = "8c51fb6a0b587ec95ca74acfa43df7539b486297".
Proof. vm_compute. reflexivity. Qed.

Example hash_of_more_than_a_buffer :
  hex_string (hash_file (repeat x61 5000)) = "6aa9bf7df2242ef867558584c02160023a96f2f9".
Proof. vm_compute. reflexivity. Qed.

Lemma parse_args_help args : forall f,
  parse_args args f = None <-> "-help" ∈ args.
Proof.
  induction args as [|arg args IH]; intros f; simpl.
  - split; [done|]. by intros ?%elem_of_nil.
  - rewrite elem_of_cons.
    destruct (String.eqb_spec arg "-summarize") as [->|_].
    { rewrite IH. split; [auto|]. by intros [|]. }
    destruct (String.prefix "-titleid=" arg) eqn:Hprefix.
    { rewrite IH. split; [auto|]. intros [<-|]; [by vm_compute in Hprefix|done]. }
    destruct (String.eqb_spec arg "-fatxplorer") as [->|_].
    { rewrite IH. split; [auto|]. by intros [|]. }
    destruct (String.eqb_spec arg "-help") as [->|Hne].
    { split; auto. }
    rewrite IH. split; [auto|]. intros [|]; [congruence|done].
Qed.

(** ** Display names of known updates *)



(** ** Filtering of the root directory *)

(** C10.  An entry of the scanned root is treated as a title folder only
    when it is a directory whose name has exactly 8 characters.  Any other
    entry leaves the run as it found it and writes nothing, not even the
    unknown-title report; an entry that passes the filter always writes
    something; so the scan of a root is the scan of its entries that pass:
    it writes the same and ends the same way. *)
Theorem root_entries_are_filtered (WIN32 : bool) (directory root : string)
    (entry : fs.node) (entries : list fs.node) (t : Titles) :
  let candidate e :=
    fs.is_directory e = true /\ String.length (fs.filename e) = 8 in
  let passing :=
    List.filter (fun e => fs.is_directory e && (String.length (fs.filename e) =? 8))
      entries in
  (~ candidate entry <-> forall s, check_entry WIN32 directory entry s = (inr tt, s))
  /\ (candidate entry <-> trace (check_entry WIN32 directory entry) t <> [])
  /\ trace (checkForContent WIN32 (fun _ => Some (fs.directory root entries)) directory) t
     = trace (checkForContent WIN32 (fun _ => Some (fs.directory root passing)) directory) t
  /\ value (checkForContent WIN32 (fun _ => Some (fs.directory root entries)) directory) t
     = value (checkForContent WIN32 (fun _ => Some (fs.directory root passing)) directory) t.
Proof.
  intros candidate passing.
  assert (Hc : forall e, candidate e <->
    fs.is_directory e && (String.length (fs.filename e) =? 8) = true).
  { intros e. unfold candidate. by rewrite andb_true_iff, Nat.eqb_eq. }
  assert (Hyes : forall e, candidate e -> trace (check_entry WIN32 directory e) t <> []).
  { intros e He%Hc. rewrite trace_check_entry, He. simpl.
    by destruct (Titles_map t !! _). }
  assert (Hno : forall e, ~ candidate e ->
    forall s, check_entry WIN32 directory e s = (inr tt, s)).
  { intros e He s. unfold check_entry.
    destruct (_ && _) eqn:Hb; [by apply Hc in Hb|done]. }
  assert (Hdec : forall e, candidate e \/ ~ candidate e).
  { intros e. rewrite Hc. destruct (_ && _); auto. }
  assert (Hloop := for_each_filter
    (fun e => fs.is_directory e && (String.length (fs.filename e) =? 8))
    entries (check_entry WIN32 directory) t (logs_check_entry WIN32 directory)).
  destruct Hloop as [Hvalue Htrace].
  { intros e He. unfold value, trace. rewrite Hno; [done|]. rewrite Hc. congruence. }
  split; [|split; [|split]].
  - split; [apply Hno|]. intros Hskip He. apply (Hyes _ He).
    unfold trace. by rewrite Hskip.
  - split; [apply Hyes|]. intros Htr. destruct (Hdec entry) as [|He]; [done|].
    destruct Htr. unfold trace. by rewrite Hno.
  - rewrite !trace_checkForContent. cbn [fs.directory_iterator]. unfold ok.
    symmetry. apply Htrace.
  - rewrite !value_checkForContent. cbn [fs.directory_iterator]. unfold ok.
    symmetry. apply Hvalue.
Qed.

(** ** The catalog during a scan *)

(** C9.  The scan receives the catalog by reference and leaves it as it
    was: for every volume, root and starting state, the catalog after
    [checkForContent] is the catalog before it; only output is added. *)
Theorem scan_leaves_catalog_unchanged (WIN32 : bool)
    (volume : string -> option fs.node) (directory : string) (s : state) :
  catalog (checkForContent WIN32 volume directory s).2 = catalog s
  /\ exists written,
       output (checkForContent WIN32 volume directory s).2 = output s ++ written.
Proof.
  split.
  - apply logs_catalog, logs_checkForContent.
  - eexists. apply logs_output, logs_checkForContent.
Qed.

(** ** Digest failures *)



(** The same in a run from [main]: the file in the middle cannot be opened,
    the files around it and the next title folder are classified, and the
    exit status is zero. *)
Example scenario_unreadable_update :
  main false []
    (mkWorld (Some (catalog_of (kString "cafe0001") [] sha1_of_empty))
       (volume_at "dump/TDATA"
          [fs.directory "ABCD1234"
             [fs.directory "$u"
                [fs.regular_file "a.xbe" (fs.readable []);
                 fs.regular_file "b.xbe" fs.unreadable;
                 fs.regular_file "c.xbx" (fs.readable [x61; x62; x63])]];
           fs.directory "ZZZZ9999" []]))
  = (returned 0,
     [LoadingJSON; Banner; CheckingForContent; FoundFolder "Game X";
      NoDLCFound "abcd1234";
      TitleUpdateFound "Game X" "abcd1234" " Title Update 2"
        "dump/TDATA/ABCD1234/$u/a.xbe" sha1_of_empty;
      HashError "dump/TDATA/ABCD1234/$u/b.xbe"
        "Failed to open file: dump/TDATA/ABCD1234/$u/b.xbe";
      NoHashMatch "c.xbx" "a9993e364706816aba3e25717850c26c9cd0d89d"
        "dump/TDATA/ABCD1234/$u/c.xbx";
      TitleNotPresent "zzzz9999" "dump/TDATA"]).
Proof. vm_compute. reflexivity. Qed.

(** ** Ties *)




(** ** File extensions *)

(** C1, as the code has it.  Extensions are compared exactly, letter case
    included: a regular file of an unarchived content folder is reported as
    content exactly when its extension is [.xbe] or [.xbx] and as an unknown
    format otherwise, and a regular file of the updates area is taken up for
    hashing, and so reported, exactly when its extension is one of the two. *)
Theorem extension_recognition_is_exact (WIN32 : bool) (data : TitleData)
    (titleID subDirUpdates name : string) (contents : fs.file_contents)
    (t : Titles) :
  let recognized := fs.extension name = ".xbe" \/ fs.extension name = ".xbx" in
  let file := fs.regular_file name contents in
  (trace (check_content_file file) t = [FoundContent name] <-> recognized)
  /\ (trace (check_content_file file) t = [FoundUnknownFormat name] <-> ~ recognized)
  /\ (trace (check_update_file WIN32 data titleID subDirUpdates file) t <> []
      <-> recognized).
Proof.
  intros recognized file.
  assert (Hspec := known_suffix_spec (fs.extension name)). fold recognized in Hspec.
  unfold trace, file, check_content_file, check_update_file. simpl.
  destruct (known_suffix (fs.extension name)) eqn:Hext.
  - assert (Hrec : recognized) by by apply Hspec.
    repeat split; try done.
    intros _. destruct contents as [|hash]; simpl; [done|].
    unfold mbind, io_bind. rewrite match_known_run.
    by destruct (List.find _ _).
  - assert (Hrec : ~ recognized). { intros H%Hspec. discriminate. }
    repeat split; try done.
Qed.

(** The claim as stated fails: the extension [.XBE] equals [.xbe] up to
    letter case, yet the file is reported as an unknown format in a content
    folder and passed over in the updates area, although its digest is that
    of a known update. *)
Lemma upper_case_extension_is_not_recognized :
  Str.iequals (fs.extension "default.XBE") ".xbe" = true
  /\ Str.iequals (fs.extension "update.XBE") ".xbe" = true
  /\ main false []
       (mkWorld
          (Some (catalog_of (kString "cafe0001") []
                   sha1_of_empty))
          (volume_at "dump/TDATA"
             [fs.directory "ABCD1234"
                [fs.directory "$c"
                   [fs.directory "cafe0001"
                      [fs.regular_file "default.XBE" (fs.readable [])]];
                 fs.directory "$u"
                   [fs.regular_file "update.XBE" (fs.readable [])]]]))
     = (returned 0,
        [LoadingJSON; Banner; CheckingForContent; FoundFolder "Game X";
         CheckingContentID "cafe0001"; ContentIDFound "cafe0001";
         UnarchivedContentFound "Game X" "dump/TDATA/ABCD1234/$c/cafe0001";
         FoundUnknownFormat "default.XBE"]).
Proof. repeat split; vm_compute; reflexivity. Qed.

(** ** Hashes of known updates *)

(** C4, as the code has it.  The digest of an update file is lower-case
    hexadecimal and is compared with the catalog hashes by exact string
    equality: the file is reported as a known update exactly when some entry
    of [TitleUpdatesKnown] has that very string as its hash, and as an
    unknown one, with the digest computed, exactly when no entry has. *)
Theorem known_update_iff_exact_hash (WIN32 : bool) (data : TitleData)
    (titleID subDirUpdates name fileHash : string) (contents : fs.file_contents)
    (t : Titles) :
  known_suffix (fs.extension name) = true ->
  getSHA1Hash contents (fs.append WIN32 subDirUpdates name) = inr fileHash ->
  let filePath := fs.append WIN32 subDirUpdates name in
  let written :=
    trace (check_update_file WIN32 data titleID subDirUpdates
             (fs.regular_file name contents)) t in
  Str.transform Str.tolower fileHash = fileHash
  /\ ((exists n, written = [TitleUpdateFound (TitleName data) titleID n filePath fileHash])
      <-> exists u, u ∈ TitleUpdatesKnown data /\ SHA1 u = fileHash)
  /\ (written = [NoHashMatch name fileHash filePath]
      <-> forall u, u ∈ TitleUpdatesKnown data -> SHA1 u <> fileHash).
Proof.
  intros Hext Hhash filePath written.
  assert (Hlower : Str.transform Str.tolower fileHash = fileHash).
  { by apply (getSHA1Hash_lower contents filePath). }
  unfold written.
  rewrite (trace_check_update_file_hashed _ _ _ _ _ _ fileHash) by done.
  fold filePath.
  destruct (List.find _ _) as [u|] eqn:Hfind.
  - apply find_some in Hfind as [Hin Heq].
    apply list_elem_of_In in Hin. apply String.eqb_eq in Heq.
    repeat split; try done; eauto.
    intros Hnone. by destruct (Hnone u Hin).
  - assert (Hnone : forall u, u ∈ TitleUpdatesKnown data -> SHA1 u <> fileHash).
    { intros u Hin%list_elem_of_In Heq.
      apply (find_none _ _ Hfind) in Hin. apply String.eqb_neq in Hin. congruence. }
    repeat split; try done.
    + by intros [n Hn].
    + intros (u & Hin & Heq). by destruct (Hnone u Hin).
Qed.

Lemma known_update_iff_exact_hash_witness :
  let data :=
    mkTitleData "Game X" [] []
      [mkTitleUpdate "Update A" sha1_of_empty] [] in
  exists n,
    trace (check_update_file false data "abcd1234" "dump/TDATA/ABCD1234/$u"
             (fs.regular_file "default.xbe" (fs.readable []))) Titles_empty
    = [TitleUpdateFound "Game X" "abcd1234" n
         "dump/TDATA/ABCD1234/$u/default.xbe"
         sha1_of_empty].
Proof.
  intros data.
  refine (proj2 (proj1 (proj2 (known_update_iff_exact_hash false data "abcd1234"
    "dump/TDATA/ABCD1234/$u" "default.xbe"
    sha1_of_empty (fs.readable [])
    Titles_empty _ _))) _).
  - reflexivity.
  - reflexivity.
  - eexists. split; [apply list_elem_of_singleton; reflexivity|reflexivity].
Defined.

(** The claim as stated fails: the catalog hash equals the digest up to
    letter case, yet the file is reported as an unknown update. *)
Lemma upper_case_hash_is_not_matched :
  Str.iequals (hex_string (hash_file [])) "DA39A3EE5E6B4B0D3255BFEF95601890AFD80709" = true
  /\ main false []
       (mkWorld
          (Some (catalog_of (kString "cafe0001") []
                   "DA39A3EE5E6B4B0D3255BFEF95601890AFD80709"))
          (volume_at "dump/TDATA"
             [fs.directory "ABCD1234"
                [fs.directory "$u"
                   [fs.regular_file "default.xbe" (fs.readable [])]]]))
     = (returned 0,
        [LoadingJSON; Banner; CheckingForContent; FoundFolder "Game X";
         NoDLCFound "abcd1234";
         NoHashMatch "default.xbe" sha1_of_empty
           "dump/TDATA/ABCD1234/$u/default.xbe"]).
Proof. split; vm_compute; reflexivity. Qed.
(** ** Exit status *)

(** C5, at an input where the code departs from it.  On a build for
    Windows, a scan of the alternate root finds the drive [X:/] but no
    directory [X:/TDATA]: the root required for the scan is absent, the
    scan reports it as not found, and the exit status is zero all the same.
    It is zero as well when the drive itself is missing.  The scan of the
    default root does what the claim says: when [dump/TDATA] is absent the
    exit status is one. *)
Theorem absent_alternate_root_exits_zero :
  let id_database := Some (catalog_of (kString "cafe0001") [] sha1_of_empty) in
  let drive_only := mkWorld id_database (volume_at "X:/" []) in
  let nothing := mkWorld id_database (fun _ => None) in
  parse_args ["-fatxplorer"] (mkFlags false EmptyString false)
    = Some (mkFlags false EmptyString true)
  /\ succeeds (loadJSONData id_database Titles_empty) = true
  /\ volume drive_only "X:/TDATA" = None
  /\ main true ["-fatxplorer"] drive_only
     = (returned 0,
        [LoadingJSON; Banner; CheckingForContent; DirectoryNotFound "X:/TDATA"])
  /\ main true ["-fatxplorer"] nothing
     = (returned 0, [LoadingJSON; Banner; XDriveNotFound])
  /\ main true [] nothing
     = (returned 1, [LoadingJSON; Banner; TDATANotFound]).
Proof. repeat split; vm_compute; reflexivity. Qed.

(** ** Malformed catalogs *)

(** X23.  Construction succeeds exactly on a well-formed catalog file: one
    that opens and parses to an object whose [Titles] member is an object,
    each title an object in which every element of an array [Content IDs]
    is a string, every element of an array [Title Updates] or
    [Title Updates Known] an object with string members [Name] and [SHA1],
    and every element of an array [Archived] an object with string values
    only.  A catalog that is not an object, has no titles object, or has an
    update entry without its name or its hash is not well formed.  When
    construction succeeds, every member of [Titles] has a record under its
    lower-case key, and every record that was not there before was built
    whole from such a member. *)
Theorem construction_succeeds_iff_well_formed (file : option Value)
    (titles : Titles) :
  succeeds (loadJSONData file titles) = catalog_ok file
  /\ (forall jsonData,
        file = Some jsonData -> malformed_by_spec jsonData = true ->
        succeeds (loadJSONData file titles) = false)
  /\ (forall titles',
        loadJSONData file titles = inr titles' ->
        exists ms tms,
          file = Some (kObject ms)
          /\ lookup_member "Titles" ms = Some (kObject tms)
          /\ (forall name title, (name, title) ∈ tms ->
                is_Some (Titles_map titles' !! title_key name))
          /\ (forall k data, Titles_map titles' !! k = Some data ->
                Titles_map titles !! k = Some data
                \/ exists name title,
                     (name, title) ∈ tms /\ k = title_key name
                     /\ load_title title = inr data)).
Proof.
  split; [apply succeeds_loadJSONData|split].
  - intros jsonData -> Hbad.
    by rewrite succeeds_loadJSONData, malformed_by_spec_not_ok.
  - intros titles' Hload.
    destruct (loadJSONData_inv _ _ _ Hload) as (ms & tms & -> & Htitles & Hloop).
    exists ms, tms. destruct (load_titles_populates _ _ _ Hloop) as [Hdom Hrec].
    by repeat split.
Qed.

(** C3, at an input where the code departs from it.  The catalog is an
    object with a titles object, and its update entries have both fields,
    so none of the three conditions of a malformed catalog holds; but a
    content identifier of its title is a number.  The members
    [Title Name] and [Content IDs] are tested for their type before they
    are read, the elements of [Content IDs] are not: [GetString] is called
    on the number, the assertion of the library fails, and the process is
    aborted during construction, with no error report and no exit status
    of [main].  A title name that is a number, by contrast, is skipped
    and construction succeeds. *)
Theorem numeric_content_id_is_rejected :
  let jsonData := catalog_of (kNumber 1) [] sha1_of_empty in
  let numeric_name :=
    kObject [("Titles", kObject [("ABCD1234", kObject [
      ("Title Name", kNumber 1);
      ("Content IDs", kArray [kString "cafe0001"])])])] in
  malformed_by_spec jsonData = false
  /\ loadJSONData (Some jsonData) Titles_empty = inl (assertion_failed "IsString()")
  /\ main false [] (mkWorld (Some jsonData) (volume_at "dump/TDATA" []))
     = (aborted, [LoadingJSON])
  /\ loadJSONData (Some numeric_name) Titles_empty
     = inr (mkTitles {["abcd1234" := mkTitleData "" ["cafe0001"] [] [] []]}).
Proof. repeat split; vm_compute; reflexivity. Qed.

(** ** Letter case of content identifiers *)

(** A content folder is looked up under its name in lower case, so an
    identifier the catalog spells with an upper-case letter is matched by no
    folder at all: a folder none of whose known identifiers is in lower case
    is reported as unknown content. *)
Lemma folder_matches_lower_case_identifiers_only WIN32 data subDirDLC folder entries t :
  (forall id, id ∈ ContentIDs data -> Str.transform Str.tolower id <> id) ->
  trace (check_subContent WIN32 data subDirDLC (fs.directory folder entries)) t
  = [CheckingContentID (Str.transform Str.tolower folder);
     UnknownContentFound (TitleName data) (fs.append WIN32 subDirDLC folder)].
Proof.
  intros Hupper. unfold trace, check_subContent. simpl.
  destruct (contains _ _) eqn:Hin; [|done].
  apply contains_elem_of, Hupper in Hin.
  by rewrite transform_tolower_idempotent in Hin.
Qed.

(** C2, at an input where the code departs from it.  The name of a content
    folder is put in lower case before it is looked up, but the identifiers
    and archive keys of the catalog are stored as written: a catalog that
    spells the identifier [CAFE0001] never matches a folder of that name,
    in either spelling, and an archive key [CAFE0001] is never found for
    the known identifier [cafe0001]. *)
Theorem upper_case_catalog_identifier_is_never_matched :
  let scan catalog folder :=
    (main false []
       (mkWorld (Some catalog)
          (volume_at "dump/TDATA"
             [fs.directory "ABCD1234"
                [fs.directory "$c" [fs.directory folder []];
                 fs.directory "$u" []]]))).2 in
  let archived := [kObject [("CAFE0001", kString "Pack")]] in
  Str.iequals "cafe0001" "CAFE0001" = true
  /\ scan (catalog_of (kString "CAFE0001") archived sha1_of_empty) "CAFE0001"
     = [LoadingJSON; Banner; CheckingForContent; FoundFolder "Game X";
        CheckingContentID "cafe0001";
        UnknownContentFound "Game X" "dump/TDATA/ABCD1234/$c/CAFE0001"]
  /\ scan (catalog_of (kString "CAFE0001") archived sha1_of_empty) "cafe0001"
     = [LoadingJSON; Banner; CheckingForContent; FoundFolder "Game X";
        CheckingContentID "cafe0001";
        UnknownContentFound "Game X" "dump/TDATA/ABCD1234/$c/cafe0001"]
  /\ scan (catalog_of (kString "cafe0001") archived sha1_of_empty) "cafe0001"
     = [LoadingJSON; Banner; CheckingForContent; FoundFolder "Game X";
        CheckingContentID "cafe0001"; ContentIDFound "cafe0001";
        UnarchivedContentFound "Game X" "dump/TDATA/ABCD1234/$c/cafe0001"].
Proof. repeat split; vm_compute; reflexivity. Qed.

(** ** Scenarios of the specification *)

Example scenario_catalog :
  loadJSONData (Some (catalog_of (kString "cafe0001") [] sha1_of_empty)) Titles_empty
  = inr (mkTitles {["abcd1234" :=
           mkTitleData "Game X" ["cafe0001"] []
             [mkTitleUpdate "XYZ: Title Update 2" sha1_of_empty] []]}).
Proof. vm_compute. reflexivity. Qed.

(** A known content folder with one file of another extension, a file of
    the updates area with a known digest, and a folder of an unknown title. *)
Example scenario_scan :
  main false []
    (mkWorld (Some (catalog_of (kString "cafe0001") [] sha1_of_empty))
       (volume_at "dump/TDATA"
          [fs.directory "ABCD1234"
             [fs.directory "$c"
                [fs.directory "cafe0001" [fs.regular_file "readme.txt" (fs.readable [])]];
              fs.directory "$u" [fs.regular_file "default.xbe" (fs.readable [])]];
           fs.directory "ZZZZ9999" [fs.directory "$c" []]]))
  = (returned 0,
     [LoadingJSON; Banner; CheckingForContent; FoundFolder "Game X";
      CheckingContentID "cafe0001"; ContentIDFound "cafe0001";
      UnarchivedContentFound "Game X" "dump/TDATA/ABCD1234/$c/cafe0001";
      FoundUnknownFormat "readme.txt";
      TitleUpdateFound "Game X" "abcd1234" " Title Update 2"
        "dump/TDATA/ABCD1234/$u/default.xbe" sha1_of_empty;
      TitleNotPresent "zzzz9999" "dump/TDATA"]).
Proof. vm_compute. reflexivity. Qed.

Example scenario_statistics :
  (main false ["-titleid=abcd1234"]
     (mkWorld (Some (catalog_of (kString "cafe0001") [] sha1_of_empty))
        (volume_at "dump/TDATA" []))).2
  = [LoadingJSON; Banner; StatsHeader "abcd1234"; TitleStats "Game X" 1 0 1 0].
Proof. vm_compute. reflexivity. Qed.

Example scenario_missing_root :
  main false [] (mkWorld (Some (catalog_of (kString "cafe0001") [] sha1_of_empty))
                   (volume_at "elsewhere" []))
  = (returned 1, [LoadingJSON; Banner; TDATANotFound]).
Proof. vm_compute. reflexivity. Qed.

Example scenario_unparsable_catalog :
  main false [] (mkWorld (Some kNull) (volume_at "dump/TDATA" []))
  = (returned 1,
     [LoadingJSON;
      ErrorLoadingJSON "Failed to parse JSON or JSON is not an object"]).
Proof. vm_compute. reflexivity. Qed.

(** * Further properties *)

(** ** The catalog after loading *)

Lemma rmap_inr {A B} (f : A -> result B) (g : A -> B) l :
  (forall a b, f a = inr b -> b = g a) ->
  forall bs, rmap f l = inr bs -> bs = map g l.
Proof.
  intros Hf. induction l as [|a l IH]; simpl; intros bs.
  - by intros [= <-].
  - destruct (f a) as [e|b] eqn:Hfa; simpl; [done|].
    destruct (rmap f l) as [e|bs'] eqn:Hl; simpl; [done|].
    intros [= <-]. by rewrite (Hf _ _ Hfa), (IH bs').
Qed.

Lemma GetString_inr v s : GetString v = inr s -> s = string_of v.
Proof. destruct v; try discriminate. by intros [= <-]. Qed.

Lemma load_update_inr update u : load_update update = inr u -> u = update_of update.
Proof.
  destruct update as [| | | |l|ms]; try discriminate.
  unfold load_update, update_of, member_string, at_. simpl.
  destruct (lookup_member "Name" ms) as [n|]; simpl; [|done].
  destruct (GetString n) as [e|sn] eqn:Hn; simpl; [done|].
  destruct (lookup_member "SHA1" ms) as [h|]; simpl; [|done].
  destruct (GetString h) as [e|sh] eqn:Hh; simpl; [done|].
  intros [= <-]. by rewrite (GetString_inr _ _ Hn), (GetString_inr _ _ Hh).
Qed.

Lemma load_archived_inr archived m :
  load_archived archived = inr m -> m = archived_of archived.
Proof.
  destruct archived as [| | | |l|ms]; try discriminate.
  unfold load_archived, archived_of. simpl.
  generalize (∅ : gmap string string). revert m.
  induction ms as [|[name value] ms IH]; simpl; intros m m0.
  - by intros [= <-].
  - destruct (GetString value) as [e|s] eqn:Hs; simpl; [done|].
    rewrite (GetString_inr _ _ Hs). apply IH.
Qed.

Lemma array_member_inr ms name {B} (f : Value -> result B) (g : Value -> B) bs :
  (forall a b, f a = inr b -> b = g a) ->
  (if (match lookup_member name ms with
       | Some v => if IsArray v then Some v else None
       | None => None
       end) is Some v
   then l ← GetArray v; rmap f l else ok []) = inr bs ->
  bs = map g (array_of ms name).
Proof.
  intros Hf. unfold array_of.
  destruct (lookup_member name ms) as [[]|]; simpl; try by intros [= <-].
  by apply rmap_inr.
Qed.

Lemma load_title_inr title data : load_title title = inr data -> data = record_of title.
Proof.
  destruct title as [| | | |l|ms]; try discriminate.
  unfold load_title, record_of. rewrite !member_if_object.
  change (ok ?x ≫= ?k) with (k x). cbv beta.
  assert (Hname :
    (if (match lookup_member "Title Name" ms with
         | Some v => if IsString v then Some v else None
         | None => None
         end) is Some v then GetString v else ok "")
    = ok (match lookup_member "Title Name" ms with
          | Some (kString s) => Str.c_str s
          | _ => EmptyString
          end)).
  { by destruct (lookup_member "Title Name" ms) as [[]|]. }
  rewrite Hname. change (ok ?x ≫= ?k) with (k x). cbv beta.
  repeat match goal with
  | |- context [(?m ≫= _)] =>
      lazymatch m with
      | ok _ => change (ok ?x ≫= ?k) with (k x); cbv beta
      | _ => let H := fresh "H" in destruct m as [?|?] eqn:H; simpl; [done|]
      end
  end.
  intros [= <-].
  repeat match goal with
  | H : _ = inr _ |- _ =>
      first [ apply (array_member_inr _ _ GetString string_of) in H;
                [|apply GetString_inr]
            | apply (array_member_inr _ _ load_update update_of) in H;
                [|apply load_update_inr]
            | apply (array_member_inr _ _ load_archived archived_of) in H;
                [|apply load_archived_inr] ];
      subst
  end.
  reflexivity.
Qed.

Lemma load_titles_app a b titles :
  load_titles titles (a ++ b) = (t ← load_titles titles a; load_titles t b).
Proof.
  unfold load_titles. revert titles.
  induction a as [|[name title] a IH]; intros titles; simpl; [done|].
  destruct (load_title title) as [e|data]; simpl; [done|]. apply IH.
Qed.

Lemma load_titles_cons name title tms titles :
  load_titles titles ((name, title) :: tms)
  = (data ← load_title title;
     load_titles (mkTitles (<[title_key name := data]> (Titles_map titles))) tms).
Proof. unfold load_titles. simpl. by destruct (load_title title). Qed.

Lemma load_titles_other tms : forall titles titles' k,
  load_titles titles tms = inr titles' ->
  (forall name title, (name, title) ∈ tms -> title_key name <> k) ->
  Titles_map titles' !! k = Titles_map titles !! k.
Proof.
  unfold load_titles.
  induction tms as [|[name title] tms IH]; intros titles titles' k; simpl.
  - by intros [= <-].
  - destruct (load_title title) as [e|data]; simpl; [done|].
    intros Hrest Hne. rewrite (IH _ _ _ Hrest); simpl.
    + apply lookup_insert_ne. apply (Hne name title). left.
    + intros n t Hin. apply (Hne n t). by right.
Qed.

Lemma iequals_title_key name folder :
  Str.iequals (Str.c_str name) folder = true
  <-> title_key name = Str.transform Str.tolower folder.
Proof. unfold Str.iequals, title_key. apply String.eqb_eq. Qed.

(** X1.  A title is loaded exactly when it is well formed, and its record
    then holds what the file says, in the order of the file: the name, or
    the empty string when [Title Name] is absent or not a string, and the
    elements of the four arrays, each list empty when its member is absent
    or not an array. *)
Theorem title_record_is_as_written (title : Value) (data : TitleData) :
  load_title title = inr data <-> title_ok title = true /\ data = record_of title.
Proof.
  split.
  - intros Hload. split; [|by apply load_title_inr].
    by rewrite <- succeeds_load_title, Hload.
  - intros [Hok ->]. rewrite <- succeeds_load_title in Hok.
    destruct (load_title title) as [e|data] eqn:Hload; [done|].
    by rewrite (load_title_inr _ _ Hload).
Qed.

(** X2.  Title keys are stored in lower case: every key the loader adds to
    the catalog is unchanged by lower-casing. *)
Theorem loaded_keys_are_lower_case (file : option Value) (titles titles' : Titles)
    (k : string) :
  loadJSONData file titles = inr titles' ->
  Titles_map titles !! k = None ->
  is_Some (Titles_map titles' !! k) ->
  Str.transform Str.tolower k = k.
Proof.
  intros Hload Hnew [data Hk].
  destruct (loadJSONData_inv _ _ _ Hload) as (ms & tms & _ & _ & Hloop).
  destruct (load_titles_populates _ _ _ Hloop) as [_ Hrec].
  destruct (Hrec _ _ Hk) as [Hold|(name & title & _ & -> & _)]; [congruence|].
  apply transform_tolower_idempotent.
Qed.

Lemma loaded_keys_are_lower_case_witness :
  Str.transform Str.tolower "abcd1234" = "abcd1234".
Proof.
  apply (loaded_keys_are_lower_case
           (Some (catalog_of (kString "cafe0001") [] sha1_of_empty))
           Titles_empty
           (mkTitles {["abcd1234" := mkTitleData "Game X" ["cafe0001"] []
                         [mkTitleUpdate "XYZ: Title Update 2" sha1_of_empty] []]})).
  - vm_compute. reflexivity.
  - reflexivity.
  - vm_compute. eauto.
Defined.

(** X3.  A title folder is recognised exactly when its name equals the
    identifier of some title of the catalog file up to letter case, whatever
    the case on either side: the scan then reports the folder found, and
    otherwise reports the lower-cased name as not present. *)
Theorem title_folder_matches_up_to_case (WIN32 : bool)
    (ms tms : list (string * Value)) (titles' : Titles)
    (directory folder : string) (entries : list fs.node) :
  loadJSONData (Some (kObject ms)) Titles_empty = inr titles' ->
  lookup_member "Titles" ms = Some (kObject tms) ->
  String.length folder = 8 ->
  let listed := exists name title,
    (name, title) ∈ tms /\ Str.iequals (Str.c_str name) folder = true in
  let written :=
    trace (check_entry WIN32 directory (fs.directory folder entries)) titles' in
  (listed -> exists data, head written = Some (FoundFolder (TitleName data)))
  /\ (~ listed ->
      written = [TitleNotPresent (Str.transform Str.tolower folder) directory]).
Proof.
  intros Hload Htitles Hlen listed written.
  destruct (loadJSONData_inv _ _ _ Hload) as (ms' & tms' & [= <-] & Htitles' & Hloop).
  assert (tms' = tms) as -> by congruence.
  destruct (load_titles_populates _ _ _ Hloop) as [Hdom Hrec].
  unfold written. rewrite trace_check_entry.
  cbn [fs.is_directory fs.filename andb]. rewrite Hlen. cbn [Nat.eqb]. cbv zeta.
  split.
  - intros (name & title & Hin & Hkey%iequals_title_key).
    destruct (Hdom _ _ Hin) as [data Hdata]. rewrite Hkey in Hdata.
    rewrite Hdata. by exists data.
  - intros Hnot.
    destruct (Titles_map titles' !! _) as [data|] eqn:Hk; [|done].
    destruct Hnot. destruct (Hrec _ _ Hk) as [Hold|(name & title & Hin & Hkey & _)].
    + unfold Titles_empty in Hold. simpl in Hold. by rewrite lookup_empty in Hold.
    + exists name, title. split; [done|]. by apply iequals_title_key.
Qed.

Lemma title_folder_matches_up_to_case_witness :
  exists data,
    head (trace (check_entry false "dump/TDATA" (fs.directory "AbCd1234" []))
            (mkTitles {["abcd1234" := mkTitleData "Game X" ["cafe0001"] []
                          [mkTitleUpdate "XYZ: Title Update 2" sha1_of_empty] []]}))
    = Some (FoundFolder (TitleName data)).
Proof.
  refine (proj1 (title_folder_matches_up_to_case false
    [("Titles", kObject [("ABCD1234", kObject [
       ("Title Name", kString "Game X");
       ("Content IDs", kArray [kString "cafe0001"]);
       ("Title Updates", kArray []);
       ("Title Updates Known",
          kArray [kObject [("Name", kString "XYZ: Title Update 2");
                           ("SHA1", kString sha1_of_empty)]]);
       ("Archived", kArray [])])])]
    _ _ "dump/TDATA" "AbCd1234" [] _ _ _) _).
  - vm_compute. reflexivity.
  - reflexivity.
  - reflexivity.
  - eexists _, _. split; [apply list_elem_of_singleton; reflexivity|].
    vm_compute. reflexivity.
Defined.

(** X4.  When several titles of the file have the same identifier up to
    letter case, the record kept under the key is that of the last of them. *)
Theorem later_title_entry_replaces_earlier (ms before after : list (string * Value))
    (name : string) (title : Value) (titles titles' : Titles) :
  loadJSONData (Some (kObject ms)) titles = inr titles' ->
  lookup_member "Titles" ms = Some (kObject (before ++ (name, title) :: after)) ->
  (forall n t, (n, t) ∈ after -> title_key n <> title_key name) ->
  Titles_map titles' !! title_key name = Some (record_of title).
Proof.
  intros Hload Htitles Hafter.
  destruct (loadJSONData_inv _ _ _ Hload) as (ms' & tms & [= <-] & Htitles' & Hloop).
  assert (tms = before ++ (name, title) :: after) as -> by congruence.
  rewrite load_titles_app in Hloop.
  destruct (load_titles titles before) as [e|t1]; simpl in Hloop; [done|].
  rewrite load_titles_cons in Hloop.
  destruct (load_title title) as [e|data] eqn:Hdata; simpl in Hloop; [done|].
  rewrite (load_titles_other _ _ _ _ Hloop Hafter). simpl.
  by rewrite lookup_insert_eq, (load_title_inr _ _ Hdata).
Qed.


Lemma later_title_entry_replaces_earlier_witness :
  exists titles',
    loadJSONData
      (Some (kObject [("Titles", kObject [
         ("ABCD1234", kObject [("Title Name", kString "First")]);
         ("abcd1234", kObject [("Title Name", kString "Second")]);
         ("ffff0000", kObject [])])])) Titles_empty = inr titles'
    /\ Titles_map titles' !! "abcd1234" = Some (mkTitleData "Second" [] [] [] []).
Proof.
  eexists. split; [vm_compute; reflexivity|].
  refine (later_title_entry_replaces_earlier
    [("Titles", kObject [
         ("ABCD1234", kObject [("Title Name", kString "First")]);
         ("abcd1234", kObject [("Title Name", kString "Second")]);
         ("ffff0000", kObject [])])]
    [("ABCD1234", kObject [("Title Name", kString "First")])]
    [("ffff0000", kObject [])]
    "abcd1234" (kObject [("Title Name", kString "Second")])
    Titles_empty _ _ _ _).
  - vm_compute. reflexivity.
  - reflexivity.
  - intros n t [= -> ->]%list_elem_of_singleton. discriminate.
Defined.

Lemma archived_fold_other ms : forall (m0 : gmap string string) k,
  (forall p, p ∈ ms -> Str.c_str p.1 <> k) ->
  fold_left (fun m p => <[Str.c_str p.1 := string_of p.2]> m) ms m0 !! k = m0 !! k.
Proof.
  induction ms as [|p ms IH]; intros m0 k Hne; simpl; [done|].
  rewrite IH by (intros q Hq; apply Hne; by right).
  apply lookup_insert_ne, Hne. left.
Qed.

(** X5.  An archived entry maps each key, as written in the file, to its
    label; a key written more than once keeps the label written last, and a
    key that is not written has none. *)
Theorem archived_entry_lookup (before after : list (string * Value))
    (name : string) (value : Value) (m : gmap string string) :
  load_archived (kObject (before ++ (name, value) :: after)) = inr m ->
  (forall p, p ∈ after -> Str.c_str p.1 <> Str.c_str name) ->
  m !! Str.c_str name = Some (string_of value)
  /\ forall k,
       (forall p, p ∈ before ++ (name, value) :: after -> Str.c_str p.1 <> k) ->
       m !! k = None.
Proof.
  intros Hload Hafter. apply load_archived_inr in Hload as ->.
  unfold archived_of. split.
  - rewrite fold_left_app. simpl. rewrite archived_fold_other by done.
    apply lookup_insert_eq.
  - intros k Hk. by rewrite archived_fold_other.
Qed.

Lemma archived_entry_lookup_witness :
  exists m,
    load_archived (kObject [("cafe0001", kString "Old"); ("cafe0001", kString "New");
                            ("CAFE0002", kString "Other")]) = inr m
    /\ m !! "cafe0001" = Some "New".
Proof.
  eexists. split; [vm_compute; reflexivity|].
  refine (proj1 (archived_entry_lookup [("cafe0001", kString "Old")]
    [("CAFE0002", kString "Other")] "cafe0001" (kString "New") _ _ _)).
  - vm_compute. reflexivity.
  - intros p ->%list_elem_of_singleton. discriminate.
Defined.

(** ** Statistics *)

Lemma trace_printTitleStats data t :
  trace (printTitleStats data) t
  = [TitleStats (TitleName data) (length (ContentIDs data))
       (length (TitleUpdates data)) (length (TitleUpdatesKnown data))
       (length (Archived data))].
Proof. reflexivity. Qed.

Lemma logs_printTitleStats data : logs (printTitleStats data).
Proof. apply logs_emit. Qed.

Lemma logs_printStats titleID batch titles : logs (printStats titleID batch titles).
Proof.
  unfold printStats. pose proof logs_printTitleStats.
  destruct batch; [|destruct (_ !! _); solve_logs].
  apply logs_for_each. intros [id data]. solve_logs.
Qed.

(** X6.  Statistics for one title are looked up under the identifier as
    given, without lower-casing it: since the loader stores lower-case keys,
    an identifier with an upper-case letter finds no data, even when the
    catalog file spells the title that way, while the key of a loaded title
    gives its header and the four counts of its record. *)
Theorem stats_lookup_is_exact (file : option Value) (titles : Titles)
    (titleID : string) (t : Titles) :
  loadJSONData file Titles_empty = inr titles ->
  (Str.transform Str.tolower titleID <> titleID ->
   trace (printStats titleID false titles) t = [NoDataFound titleID])
  /\ (forall data,
        Titles_map titles !! titleID = Some data ->
        trace (printStats titleID false titles) t
        = [StatsHeader titleID;
           TitleStats (TitleName data) (length (ContentIDs data))
             (length (TitleUpdates data)) (length (TitleUpdatesKnown data))
             (length (Archived data))]).
Proof.
  intros Hload. split.
  - intros Hupper. unfold printStats.
    destruct (Titles_map titles !! titleID) as [data|] eqn:Hk; [|done].
    destruct Hupper.
    destruct (loadJSONData_inv _ _ _ Hload) as (ms & tms & _ & _ & Hloop).
    destruct (load_titles_populates _ _ _ Hloop) as [_ Hrec].
    destruct (Hrec _ _ Hk) as [Hold|(name & title & _ & -> & _)].
    + unfold Titles_empty in Hold. simpl in Hold. by rewrite lookup_empty in Hold.
    + apply transform_tolower_idempotent.
  - intros data Hk. unfold printStats. by rewrite Hk.
Qed.

Lemma stats_lookup_is_exact_witness :
  let titles := mkTitles {["abcd1234" := mkTitleData "Game X" ["cafe0001"] []
                            [mkTitleUpdate "XYZ: Title Update 2" sha1_of_empty] []]} in
  trace (printStats "ABCD1234" false titles) Titles_empty = [NoDataFound "ABCD1234"]
  /\ trace (printStats "abcd1234" false titles) Titles_empty
     = [StatsHeader "abcd1234"; TitleStats "Game X" 1 0 1 0].
Proof.
  intros titles.
  destruct (stats_lookup_is_exact
    (Some (catalog_of (kString "cafe0001") [] sha1_of_empty)) titles "ABCD1234"
    Titles_empty) as [Hupper _]; [vm_compute; reflexivity|].
  destruct (stats_lookup_is_exact
    (Some (catalog_of (kString "cafe0001") [] sha1_of_empty)) titles "abcd1234"
    Titles_empty) as [_ Hlower]; [vm_compute; reflexivity|].
  split; [apply Hupper; discriminate|].
  apply (Hlower (mkTitleData "Game X" ["cafe0001"] []
                   [mkTitleUpdate "XYZ: Title Update 2" sha1_of_empty] [])).
  vm_compute. reflexivity.
Defined.

(** X7.  The summary of all titles writes, for every title of the catalog
    and for each exactly once, its header followed by its four counts, in
    ascending order of the keys; the identifier passed along is not used. *)
Theorem summary_lists_every_title_once (titles : Titles) (titleID : string)
    (t : Titles) :
  let pairs := in_key_order (Titles_map titles) in
  trace (printStats titleID true titles) t
  = flat_map (fun p =>
      [StatsHeader p.1;
       TitleStats (TitleName p.2) (length (ContentIDs p.2))
         (length (TitleUpdates p.2)) (length (TitleUpdatesKnown p.2))
         (length (Archived p.2))]) pairs
  /\ (forall id data, (id, data) ∈ pairs <-> Titles_map titles !! id = Some data)
  /\ NoDup pairs.*1
  /\ Sorted (fun a b => String.le a.1 b.1) pairs.
Proof.
  intros pairs.
  assert (Hperm : pairs ≡ₚ map_to_list (Titles_map titles)).
  { apply merge_sort_Permutation. }
  repeat split.
  - unfold printStats. rewrite trace_for_each.
    + apply flat_map_ext. intros [id data]. reflexivity.
    + intros [id data]. pose proof logs_printTitleStats. solve_logs.
    + by intros [id data] _.
  - intros Hin. rewrite Hperm in Hin. by apply elem_of_map_to_list.
  - intros Hk. rewrite Hperm. by apply elem_of_map_to_list.
  - rewrite Hperm. apply NoDup_fst_map_to_list.
  - unfold pairs, in_key_order, String.le.
    assert (Htotal : Total (fun a b : string * TitleData => Is_true (String.leb a.1 b.1))).
    { intros a b. apply (String.le_total a.1 b.1). }
    apply (Sorted_merge_sort _).
Qed.

(** ** Digests *)

Lemma hex_byte_digits b :
  exists c1 c2, hex_byte b = String c1 (String c2 EmptyString)
                /\ c1 ∈ hex_digits /\ c2 ∈ hex_digits
                /\ (16 * hex_value c1 + hex_value c2)%N = Byte.to_N b.
Proof.
  destruct b; eexists _, _;
    (split; [reflexivity|split; [|split; [|reflexivity]]]);
    apply (bool_decide_unpack _); vm_compute; exact I.
Qed.

Lemma hex_string_digits hash :
  Forall (fun c => c ∈ hex_digits) (list_ascii_of_string (hex_string hash)).
Proof.
  induction hash as [|b hash IH]; [constructor|].
  rewrite hex_string_cons.
  destruct (hex_byte_digits b) as (c1 & c2 & -> & H1 & H2 & _).
  change (Forall (fun c => c ∈ hex_digits)
            (list_ascii_of_string (String c1 (String c2 (hex_string hash))))).
  simpl. constructor; [done|]. by constructor.
Qed.

Lemma hex_byte_inj b1 b2 : hex_byte b1 = hex_byte b2 -> b1 = b2.
Proof.
  destruct (hex_byte_digits b1) as (c1 & c2 & -> & _ & _ & H1).
  destruct (hex_byte_digits b2) as (d1 & d2 & -> & _ & _ & H2).
  intros [= -> ->]. rewrite H1 in H2.
  apply (f_equal Byte.of_N) in H2. rewrite !Byte.of_to_N in H2. congruence.
Qed.

(** X8.  Hashing fails exactly when the file cannot be opened, with a
    message that names the path; otherwise the digest text has exactly 40
    characters, each one of [0123456789abcdef]. *)
Theorem digest_text_shape (contents : fs.file_contents) (filePath : string) :
  (getSHA1Hash contents filePath
     = inl (runtime_error ("Failed to open file: " +:+ filePath))
   <-> contents = fs.unreadable)
  /\ (succeeds (getSHA1Hash contents filePath) = false <-> contents = fs.unreadable)
  /\ forall fileHash,
       getSHA1Hash contents filePath = inr fileHash ->
       String.length fileHash = 40
       /\ Forall (fun c => c ∈ hex_digits) (list_ascii_of_string fileHash).
Proof.
  repeat split; try (by destruct contents).
  - by apply (getSHA1Hash_length contents filePath).
  - destruct contents as [|bytes]; [done|].
    rewrite getSHA1Hash_readable in H. injection H as <-. apply hex_string_digits.
Qed.

(** X9.  The digest text determines the digest: two byte sequences with the
    same text are equal, thanks to the two characters written for every
    byte. *)
Theorem hex_string_inj (hash1 hash2 : list byte) :
  hex_string hash1 = hex_string hash2 <-> hash1 = hash2.
Proof.
  split; [|by intros ->].
  revert hash2. induction hash1 as [|b1 hash1 IH]; intros [|b2 hash2].
  - done.
  - rewrite hex_string_cons.
    destruct (hex_byte_digits b2) as (c1 & c2 & -> & _).
    change ("" = String c1 (String c2 (hex_string hash2)) -> [] = b2 :: hash2).
    discriminate.
  - rewrite hex_string_cons.
    destruct (hex_byte_digits b1) as (c1 & c2 & -> & _).
    change (String c1 (String c2 (hex_string hash1)) = "" -> b1 :: hash1 = []).
    discriminate.
  - rewrite !hex_string_cons.
    destruct (hex_byte_digits b1) as (c1 & c2 & Hb1 & _).
    destruct (hex_byte_digits b2) as (d1 & d2 & Hb2 & _).
    rewrite Hb1, Hb2.
    change (String c1 (String c2 (hex_string hash1))
            = String d1 (String d2 (hex_string hash2)) -> b1 :: hash1 = b2 :: hash2).
    intros [= -> -> Hrest].
    rewrite (hex_byte_inj b1 b2) by congruence. by rewrite (IH hash2).
Qed.

Lemma blocks_S fuel st bytes :
  SHA.blocks (S fuel) st bytes
  = if 64 <=? length bytes
    then SHA.blocks fuel (SHA.block st (firstn 64 bytes)) (skipn 64 bytes)
    else (st, bytes).
Proof. reflexivity. Qed.

Lemma blocks_short fuel st bytes :
  length bytes < 64 -> SHA.blocks fuel st bytes = (st, bytes).
Proof.
  intros Hlen. destruct fuel as [|fuel]; [done|].
  rewrite blocks_S. by destruct (Nat.leb_spec 64 (length bytes)); [lia|].
Qed.

Lemma blocks_fuel fuel : forall fuel' st bytes,
  length bytes <= 64 * fuel -> length bytes <= 64 * fuel' ->
  SHA.blocks fuel st bytes = SHA.blocks fuel' st bytes.
Proof.
  induction fuel as [|fuel IH]; intros fuel' st bytes Hf Hf'.
  - rewrite (blocks_short fuel') by lia. done.
  - rewrite blocks_S. destruct (Nat.leb_spec 64 (length bytes)) as [Hlen|Hlen].
    + destruct fuel' as [|fuel']; [lia|]. rewrite blocks_S.
      destruct (Nat.leb_spec 64 (length bytes)); [|lia].
      apply IH; rewrite length_skipn; lia.
    + by rewrite blocks_short.
Qed.

Lemma blocks_app fuel : forall st x y,
  length x <= 64 * fuel ->
  SHA.blocks (length (x ++ y)) st (x ++ y)
  = let '(st1, rest) := SHA.blocks fuel st x in
    SHA.blocks (length (rest ++ y)) st1 (rest ++ y).
Proof.
  induction fuel as [|fuel IH]; intros st x y Hf.
  - by destruct x; [|simpl in Hf; lia].
  - rewrite blocks_S. destruct (Nat.leb_spec 64 (length x)) as [Hlen|Hlen]; [|done].
    rewrite <- IH by (rewrite length_skipn; lia).
    rewrite (blocks_fuel (length (x ++ y)) (S (length (skipn 64 x ++ y))))
      by (rewrite ?length_app, ?length_skipn; lia).
    rewrite blocks_S, length_app.
    destruct (Nat.leb_spec 64 (length x + length y)); [|lia].
    rewrite firstn_app, skipn_app.
    replace (64 - length x) with 0 by lia.
    by rewrite firstn_0, skipn_0, app_nil_r.
Qed.

(** Updating with two pieces one after the other is updating with both at
    once. *)
Lemma SHA1_Update_app c a b :
  SHA.SHA1_Update (SHA.SHA1_Update c a) b = SHA.SHA1_Update c (a ++ b).
Proof.
  unfold SHA.SHA1_Update. rewrite (app_assoc (SHA.data c) a b).
  rewrite (blocks_app (length (SHA.data c ++ a)) (SHA.h c) (SHA.data c ++ a) b) by lia.
  destruct (SHA.blocks _ _ (SHA.data c ++ a)) as [st1 rest]. simpl.
  destruct (SHA.blocks _ _ (rest ++ b)) as [st2 rest2].
  f_equal. rewrite length_app. lia.
Qed.

Lemma read_loop_S fuel sha1 file :
  read_loop (S fuel) sha1 file
  = if buffer_size <=? length file
    then read_loop fuel (SHA.SHA1_Update sha1 (firstn buffer_size file))
           (skipn buffer_size file)
    else (sha1, file).
Proof. reflexivity. Qed.

Lemma read_loop_update fuel : forall sha1 file,
  SHA.SHA1_Update (read_loop fuel sha1 file).1 (read_loop fuel sha1 file).2
  = SHA.SHA1_Update sha1 file.
Proof.
  induction fuel as [|fuel IH]; intros sha1 file; [done|].
  rewrite read_loop_S. destruct (buffer_size <=? length file); [|done].
  by rewrite IH, SHA1_Update_app, firstn_skipn.
Qed.

(** X10.  Reading the file through the buffer changes nothing: the digest
    is that of a single update with the whole contents, whatever the size
    of the file. *)
Theorem hash_file_is_one_update (file : list byte) :
  hash_file file = SHA.SHA1_Final (SHA.SHA1_Update SHA.SHA1_Init file).
Proof.
  unfold hash_file. pose proof (read_loop_update (length file) SHA.SHA1_Init file) as H.
  destruct (read_loop _ _ _) as [sha1 rest]. simpl in H. by rewrite H.
Qed.

(** ** Content folders *)

Lemma trace_check_subContent WIN32 data subDirDLC subContent t :
  trace (check_subContent WIN32 data subDirDLC subContent) t =
    if fs.is_directory subContent then
      let contentID := Str.transform Str.tolower (fs.filename subContent) in
      let path := fs.append WIN32 subDirDLC (fs.filename subContent) in
      CheckingContentID contentID ::
      if contains (ContentIDs data) contentID then
        ContentIDFound contentID ::
        if negb (String.eqb (find_archived (Archived data) contentID) EmptyString)
        then [ArchivedContentFound (TitleName data) path
                (find_archived (Archived data) contentID)]
        else UnarchivedContentFound (TitleName data) path
             :: match fs.directory_iterator path subContent with
                | inr files => trace (for_each files check_content_file) t
                | inl _ => []
                end
      else [UnknownContentFound (TitleName data) path]
    else [].
Proof.
  unfold check_subContent. destruct (fs.is_directory subContent); [|done].
  cbv zeta. after_emit. f_equal.
  destruct (contains _ _); [|done].
  after_emit. f_equal.
  destruct (negb _); [done|].
  after_emit. f_equal.
  rewrite trace_bind by solve_logs. by rewrite trace_lift, value_lift.
Qed.

Lemma find_archived_none archived contentID :
  (forall a, a ∈ archived -> a !! contentID = None) ->
  find_archived archived contentID = EmptyString.
Proof.
  induction archived as [|a archived IH]; intros Hnone; simpl; [done|].
  rewrite (Hnone a) by left. apply IH. intros b Hb. apply Hnone. by right.
Qed.

(** X11.  A content folder gets one of three reports, decided by its name
    in lower case.  A name that is not among the content identifiers is
    unknown content, whatever the archived entries say.  A known name with
    a non-empty label is archived, and its files are not looked at.  A known
    name with no label is unarchived, followed by the reports of its files;
    there is no label, in particular, when no archived entry has the name
    as a key. *)
Theorem content_folder_decision (WIN32 : bool) (data : TitleData)
    (subDirDLC folder : string) (entries : list fs.node) (t : Titles) :
  let contentID := Str.transform Str.tolower folder in
  let path := fs.append WIN32 subDirDLC folder in
  let label := find_archived (Archived data) contentID in
  let written :=
    trace (check_subContent WIN32 data subDirDLC (fs.directory folder entries)) t in
  (contentID ∉ ContentIDs data ->
   written = [CheckingContentID contentID;
              UnknownContentFound (TitleName data) path])
  /\ (contentID ∈ ContentIDs data -> label <> EmptyString ->
      written = [CheckingContentID contentID; ContentIDFound contentID;
                 ArchivedContentFound (TitleName data) path label])
  /\ (contentID ∈ ContentIDs data -> label = EmptyString ->
      written = CheckingContentID contentID :: ContentIDFound contentID ::
                UnarchivedContentFound (TitleName data) path ::
                trace (for_each entries check_content_file) t)
  /\ ((forall a, a ∈ Archived data -> a !! contentID = None) ->
      label = EmptyString).
Proof.
  intros contentID path label written.
  unfold written. rewrite trace_check_subContent.
  cbn [fs.is_directory fs.filename fs.directory_iterator]. unfold ok. cbv zeta.
  fold contentID path label.
  repeat split.
  - intros Hnot. destruct (contains _ _) eqn:Hin; [|done].
    by apply contains_elem_of in Hin.
  - intros Hin%contains_elem_of Hlabel. rewrite Hin.
    by destruct (String.eqb_spec label EmptyString).
  - intros Hin%contains_elem_of Hlabel. by rewrite Hin, Hlabel.
  - apply find_archived_none.
Qed.

(** X12.  An empty label counts as no label: when the first archived entry
    that has the name of a known content folder as a key gives it the empty
    string, the folder is reported as unarchived and its files are listed,
    even if a later entry gives it a label. *)
Theorem empty_label_means_unarchived (WIN32 : bool) (data : TitleData)
    (subDirDLC folder : string) (entries : list fs.node)
    (before after : list (gmap string string)) (a : gmap string string)
    (t : Titles) :
  let contentID := Str.transform Str.tolower folder in
  contentID ∈ ContentIDs data ->
  Archived data = before ++ a :: after ->
  (forall b, b ∈ before -> b !! contentID = None) ->
  a !! contentID = Some EmptyString ->
  trace (check_subContent WIN32 data subDirDLC (fs.directory folder entries)) t
  = CheckingContentID contentID :: ContentIDFound contentID ::
    UnarchivedContentFound (TitleName data) (fs.append WIN32 subDirDLC folder) ::
    trace (for_each entries check_content_file) t.
Proof.
  intros contentID Hin%contains_elem_of Harch Hbefore Ha.
  rewrite trace_check_subContent.
  cbn [fs.is_directory fs.filename fs.directory_iterator]. unfold ok. cbv zeta.
  fold contentID.
  by rewrite Hin, Harch, (find_archived_first before a after contentID EmptyString).
Qed.

Lemma empty_label_means_unarchived_witness :
  let data :=
    mkTitleData "Game X" ["cafe0001"] [] []
      [{["cafe0001" := EmptyString]}; {["cafe0001" := "Pack"]}] in
  trace (check_subContent false data "dump/TDATA/ABCD1234/$c"
           (fs.directory "CAFE0001" [fs.regular_file "default.xbe" fs.unreadable]))
        Titles_empty
  = [CheckingContentID "cafe0001"; ContentIDFound "cafe0001";
     UnarchivedContentFound "Game X" "dump/TDATA/ABCD1234/$c/CAFE0001";
     FoundContent "default.xbe"].
Proof.
  intros data.
  apply (empty_label_means_unarchived false data "dump/TDATA/ABCD1234/$c" "CAFE0001"
           [fs.regular_file "default.xbe" fs.unreadable]
           [] [{["cafe0001" := "Pack"]}] {["cafe0001" := EmptyString]} Titles_empty).
  - apply list_elem_of_singleton. reflexivity.
  - reflexivity.
  - intros b Hb. by apply elem_of_nil in Hb.
  - reflexivity.
Defined.

Lemma forget_filename n : fs.filename (forget_contents n) = fs.filename n.
Proof. by destruct n. Qed.

Lemma forget_is_directory n : fs.is_directory (forget_contents n) = fs.is_directory n.
Proof. by destruct n. Qed.

Lemma forget_is_regular_file n :
  fs.is_regular_file (forget_contents n) = fs.is_regular_file n.
Proof. by destruct n. Qed.

Lemma forget_entries n : fs.entries (forget_contents n) = map forget_contents (fs.entries n).
Proof. by destruct n. Qed.

Lemma forget_directory_iterator path n :
  fs.directory_iterator path (forget_contents n)
  = match fs.directory_iterator path n with
    | inr l => inr (map forget_contents l)
    | inl e => inl e
    end.
Proof. by destruct n. Qed.

Lemma forget_lookup name l :
  fs.lookup name (map forget_contents l) = forget_contents <$> fs.lookup name l.
Proof.
  induction l as [|n l IH]; simpl; [done|].
  rewrite forget_filename. by destruct (String.eqb _ _).
Qed.

Lemma forget_directory_at name entry :
  directory_at name (forget_contents entry)
  = forget_contents <$> directory_at name entry.
Proof.
  unfold directory_at. rewrite forget_entries, forget_lookup.
  destruct (fs.lookup name _) as [n|]; [|done]. simpl.
  rewrite forget_is_directory. by destruct (fs.is_directory n).
Qed.

Lemma trace_check_content_file file t :
  trace (check_content_file file) t =
    if fs.is_regular_file file then
      if known_suffix (fs.extension (fs.filename file))
      then [FoundContent (fs.filename file)]
      else [FoundUnknownFormat (fs.filename file)]
    else [].
Proof.
  unfold trace, check_content_file.
  destruct (fs.is_regular_file file); [|done]. by destruct (known_suffix _).
Qed.

Lemma flat_map_map {A B C} (f : A -> B) (g : B -> list C) l :
  flat_map g (map f l) = flat_map (fun a => g (f a)) l.
Proof. induction l as [|a l IH]; simpl; [done|]. by rewrite IH. Qed.

Lemma forget_check_subContent WIN32 data subDirDLC subContent t :
  value (check_subContent WIN32 data subDirDLC (forget_contents subContent)) t
  = value (check_subContent WIN32 data subDirDLC subContent) t
  /\ trace (check_subContent WIN32 data subDirDLC (forget_contents subContent)) t
     = trace (check_subContent WIN32 data subDirDLC subContent) t.
Proof.
  rewrite !value_check_subContent, !trace_check_subContent. cbv zeta.
  rewrite forget_is_directory, forget_filename, forget_directory_iterator.
  destruct (fs.is_directory subContent); [|done].
  destruct (fs.directory_iterator _ subContent) as [e|files]; [done|].
  split; [by destruct (_ && _)|]. f_equal.
  destruct (contains _ _); [|done]. f_equal. destruct (negb _); [done|]. f_equal.
  rewrite !trace_content_files, flat_map_map. apply flat_map_ext. intros file.
  by rewrite !trace_check_content_file, forget_is_regular_file, forget_filename.
Qed.

(** X13.  The files of content folders are never opened: the report for
    the [$c] part of a title folder is the same when every file beneath it
    is unreadable, so it depends on names and kinds only. *)
Theorem content_files_are_never_opened (WIN32 : bool) (data : TitleData)
    (titleID entry_path : string) (entry : fs.node) (t : Titles) :
  trace (check_dlc WIN32 data titleID entry_path (forget_contents entry)) t
  = trace (check_dlc WIN32 data titleID entry_path entry) t.
Proof.
  unfold check_dlc. rewrite forget_directory_at.
  destruct (directory_at "$c" entry) as [dlc|]; [|done].
  cbn [fmap option_fmap option_map].
  rewrite !trace_bind by solve_logs.
  rewrite !trace_lift, !value_lift, forget_directory_iterator.
  destruct (fs.directory_iterator _ dlc) as [e|subs]; [done|].
  cbn [app]. rewrite for_each_map.
  apply for_each_pointwise; [solve_logs..|].
  intros sub _. apply forget_check_subContent.
Qed.

(** ** One report per file *)

Lemma trace_check_update_file_length WIN32 data titleID subDirUpdates file t :
  length (trace (check_update_file WIN32 data titleID subDirUpdates file) t)
  = if selected file then 1 else 0.
Proof.
  unfold selected, trace, check_update_file.
  destruct file as [| |name contents|]; try done. simpl.
  destruct (known_suffix _); [|done].
  destruct (getSHA1Hash _ _) as [e|fileHash]; [done|].
  unfold mbind, io_bind. rewrite match_known_run.
  by destruct (List.find _ _).
Qed.

(** X14.  Every regular file of an unarchived content folder gets exactly
    one report, and every regular file of the updates area with a known
    suffix exactly one; nothing else in either folder gets any. *)
Theorem one_report_per_file (WIN32 : bool) (data : TitleData)
    (titleID subDirUpdates : string) (entries : list fs.node) (t : Titles) :
  length (trace (for_each entries check_content_file) t)
  = length (List.filter fs.is_regular_file entries)
  /\ length (trace (for_each entries
               (check_update_file WIN32 data titleID subDirUpdates)) t)
     = length (List.filter selected entries).
Proof.
  rewrite trace_content_files, trace_update_files. split.
  - induction entries as [|file entries IH]; simpl; [done|].
    rewrite length_app, IH, trace_check_content_file.
    destruct (fs.is_regular_file file); [|done]. by destruct (known_suffix _).
  - induction entries as [|file entries IH]; simpl; [done|].
    rewrite length_app, IH, trace_check_update_file_length.
    by destruct (selected file).
Qed.

(** ** What the scan reads of the catalog *)

(** Within a title folder the catalog is not looked up again. *)
Lemma trace_content_files_catalog entries t1 t2 :
  trace (for_each entries check_content_file) t1
  = trace (for_each entries check_content_file) t2.
Proof.
  rewrite !trace_content_files. apply flat_map_ext. intros file.
  by rewrite !trace_check_content_file.
Qed.

Lemma check_subContent_catalog WIN32 data subDirDLC subContent t1 t2 :
  value (check_subContent WIN32 data subDirDLC subContent) t1
  = value (check_subContent WIN32 data subDirDLC subContent) t2
  /\ trace (check_subContent WIN32 data subDirDLC subContent) t1
     = trace (check_subContent WIN32 data subDirDLC subContent) t2.
Proof.
  rewrite !value_check_subContent, !trace_check_subContent. split; [done|].
  destruct (fs.is_directory subContent); [|done]. cbv zeta.
  destruct (fs.directory_iterator _ subContent) as [e|files]; [done|].
  by rewrite (trace_content_files_catalog _ t1 t2).
Qed.

Lemma trace_check_update_file_catalog WIN32 data titleID subDirUpdates file t1 t2 :
  trace (check_update_file WIN32 data titleID subDirUpdates file) t1
  = trace (check_update_file WIN32 data titleID subDirUpdates file) t2.
Proof.
  unfold trace, check_update_file.
  destruct file as [| |name contents|]; try done.
  destruct (known_suffix _); [|done]. cbv zeta.
  destruct (getSHA1Hash _ _) as [e|fileHash]; [done|].
  unfold mbind, io_bind. rewrite !match_known_run.
  by destruct (List.find _ _).
Qed.

Lemma match_known_without_updates known data titleID filePath fileHash s :
  match_known known (without_updates data) titleID filePath fileHash s
  = match_known known data titleID filePath fileHash s.
Proof. by rewrite !match_known_run. Qed.

Lemma check_update_file_without_updates WIN32 data titleID subDirUpdates file t :
  trace (check_update_file WIN32 (without_updates data) titleID subDirUpdates file) t
  = trace (check_update_file WIN32 data titleID subDirUpdates file) t.
Proof.
  unfold trace, check_update_file.
  destruct file as [| |name contents|]; try done.
  destruct (known_suffix _); [|done]. cbv zeta.
  destruct (getSHA1Hash _ _) as [e|fileHash]; [done|].
  unfold mbind, io_bind. by rewrite match_known_without_updates.
Qed.

(** The two areas of a title folder, for two records and two catalogs. *)
Lemma check_dlc_agree WIN32 data1 data2 titleID entry_path entry t1 t2 :
  (forall subDirDLC subContent,
     value (check_subContent WIN32 data1 subDirDLC subContent) t1
     = value (check_subContent WIN32 data2 subDirDLC subContent) t2
     /\ trace (check_subContent WIN32 data1 subDirDLC subContent) t1
        = trace (check_subContent WIN32 data2 subDirDLC subContent) t2) ->
  value (check_dlc WIN32 data1 titleID entry_path entry) t1
  = value (check_dlc WIN32 data2 titleID entry_path entry) t2
  /\ trace (check_dlc WIN32 data1 titleID entry_path entry) t1
     = trace (check_dlc WIN32 data2 titleID entry_path entry) t2.
Proof.
  intros Hsub. unfold check_dlc.
  destruct (directory_at "$c" entry) as [dlc|]; [|done].
  rewrite !value_bind, !trace_bind by solve_logs.
  rewrite !trace_lift, !value_lift.
  destruct (fs.directory_iterator _ dlc) as [e|subs]; [done|]. cbn [app].
  apply for_each_pointwise; [solve_logs..|]. intros sub _. apply Hsub.
Qed.

Lemma check_updates_agree WIN32 data1 data2 titleID entry_path entry t1 t2 :
  (forall subDirUpdates file,
     trace (check_update_file WIN32 data1 titleID subDirUpdates file) t1
     = trace (check_update_file WIN32 data2 titleID subDirUpdates file) t2) ->
  value (check_updates WIN32 data1 titleID entry_path entry) t1
  = value (check_updates WIN32 data2 titleID entry_path entry) t2
  /\ trace (check_updates WIN32 data1 titleID entry_path entry) t1
     = trace (check_updates WIN32 data2 titleID entry_path entry) t2.
Proof.
  intros Hfile. unfold check_updates.
  destruct (directory_at "$u" entry) as [updates|]; [|done].
  rewrite !value_bind, !trace_bind by solve_logs.
  rewrite !trace_lift, !value_lift.
  destruct (fs.directory_iterator _ updates) as [e|files]; [done|]. cbn [app].
  apply for_each_pointwise; [solve_logs..|]. intros file _.
  by rewrite !value_check_update_file, Hfile.
Qed.

(** X15.  The scan never consults the list [TitleUpdates]: it writes the
    same for a catalog whose records have that list emptied.  Updates are
    identified by the hashes of [TitleUpdatesKnown] alone. *)
Theorem scan_ignores_title_updates (WIN32 : bool)
    (volume : string -> option fs.node) (directory : string) (t : Titles) :
  trace (checkForContent WIN32 volume directory)
        (mkTitles (without_updates <$> Titles_map t))
  = trace (checkForContent WIN32 volume directory) t.
Proof.
  rewrite !trace_checkForContent. destruct (volume directory) as [root|]; [|done].
  destruct (fs.directory_iterator directory root) as [e|entries]; [done|].
  apply for_each_pointwise; [solve_logs..|]. intros entry _.
  rewrite !value_check_entry, !trace_check_entry.
  destruct (_ && _); [|done]. cbv zeta. cbn [Titles_map].
  rewrite lookup_fmap. destruct (Titles_map t !! _) as [data|]; [|done].
  cbn [fmap option_fmap option_map].
  set (t' := mkTitles (without_updates <$> Titles_map t)).
  set (titleID := Str.transform Str.tolower (fs.filename entry)).
  set (entry_path := fs.append WIN32 directory (fs.filename entry)).
  destruct (check_dlc_agree WIN32 (without_updates data) data titleID entry_path
              entry t' t) as [-> ->].
  { intros subDirDLC subContent.
    apply (check_subContent_catalog WIN32 data subDirDLC subContent t' t). }
  destruct (check_updates_agree WIN32 (without_updates data) data titleID entry_path
              entry t' t) as [-> ->]; [|done].
  intros subDirUpdates file.
  rewrite (trace_check_update_file_catalog _ _ _ _ _ _ t).
  apply check_update_file_without_updates.
Qed.

(** ** The two areas of a title folder *)

Lemma check_subContent_no_absence WIN32 data subDirDLC subContent t :
  Forall (fun e => is_absence_report e = false)
    (trace (check_subContent WIN32 data subDirDLC subContent) t).
Proof.
  rewrite trace_check_subContent. destruct (fs.is_directory subContent); [|constructor].
  cbv zeta. constructor; [done|]. destruct (contains _ _); [|by repeat constructor].
  constructor; [done|]. destruct (negb _); [by repeat constructor|].
  constructor; [done|].
  destruct (fs.directory_iterator _ _) as [e|files]; [constructor|].
  rewrite trace_content_files. apply Forall_flat_map, Forall_forall.
  intros file _. rewrite trace_check_content_file.
  destruct (fs.is_regular_file file); [|constructor].
  destruct (known_suffix _); by repeat constructor.
Qed.

Lemma check_update_file_no_absence WIN32 data titleID subDirUpdates file t :
  Forall (fun e => is_absence_report e = false)
    (trace (check_update_file WIN32 data titleID subDirUpdates file) t).
Proof.
  unfold trace, check_update_file.
  destruct file as [| |name contents|]; try constructor.
  destruct (known_suffix _); [|constructor]. cbv zeta.
  destruct (getSHA1Hash _ _) as [e|fileHash]; [by repeat constructor|].
  unfold mbind, io_bind. rewrite match_known_run.
  destruct (List.find _ _); by repeat constructor.
Qed.

Lemma has_directory_at entry name :
  has_directory entry name = if directory_at name entry is Some _ then true else false.
Proof.
  unfold has_directory, directory_at.
  destruct (fs.lookup name _) as [n|]; [|done]. by destruct (fs.is_directory n).
Qed.

(** X16.  The report that a title has no content area is written exactly
    when its folder has no directory [$c], and the report that it has no
    updates exactly when it has no directory [$u]; a directory that is
    there but empty is passed over without a word. *)
Theorem absence_is_reported_exactly (WIN32 : bool) (data : TitleData)
    (titleID entry_path : string) (entry : fs.node) (t : Titles) :
  let dlc := trace (check_dlc WIN32 data titleID entry_path entry) t in
  let updates := trace (check_updates WIN32 data titleID entry_path entry) t in
  (has_directory entry "$c" = false <-> dlc = [NoDLCFound titleID])
  /\ (has_directory entry "$u" = false <-> updates = [NoTitleUpdates titleID])
  /\ (forall name, fs.lookup "$c" (fs.entries entry) = Some (fs.directory name []) ->
        dlc = [])
  /\ (forall name, fs.lookup "$u" (fs.entries entry) = Some (fs.directory name []) ->
        updates = []).
Proof.
  intros dlc updates. unfold dlc, updates. rewrite !has_directory_at.
  unfold check_dlc, check_updates.
  repeat split.
  - by destruct (directory_at "$c" entry).
  - destruct (directory_at "$c" entry) as [n|]; [|done].
    rewrite trace_bind, trace_lift, value_lift by solve_logs. cbn [app].
    intros Heq.
    assert (Hall : Forall (fun e => is_absence_report e = false) [NoDLCFound titleID]).
    { rewrite <- Heq. destruct (fs.directory_iterator _ n) as [e|subs]; [constructor|].
      apply Forall_trace_for_each; [solve_logs|]. intros sub _.
      apply check_subContent_no_absence. }
    by inversion Hall.
  - by destruct (directory_at "$u" entry).
  - destruct (directory_at "$u" entry) as [n|]; [|done].
    rewrite trace_bind, trace_lift, value_lift by solve_logs. cbn [app].
    intros Heq.
    assert (Hall : Forall (fun e => is_absence_report e = false) [NoTitleUpdates titleID]).
    { rewrite <- Heq. destruct (fs.directory_iterator _ n) as [e|files]; [constructor|].
      apply Forall_trace_for_each; [solve_logs|]. intros file _.
      apply check_update_file_no_absence. }
    by inversion Hall.
  - unfold directory_at. by intros name ->.
  - unfold directory_at. by intros name ->.
Qed.

(** ** The modes of the program *)

#[local] Hint Resolve logs_printStats logs_checkForContent : logs.

Lemma logs_run WIN32 f w titles : logs (run WIN32 f w titles).
Proof. unfold run. solve_logs. Qed.

(** [main] once the arguments are parsed and the catalog is loaded. *)
Lemma main_loaded WIN32 args w f titles :
  parse_args args (mkFlags false EmptyString false) = Some f ->
  loadJSONData (id_database w) Titles_empty = inr titles ->
  main WIN32 args w
  = (ending (value (run WIN32 f w titles) titles),
     LoadingJSON :: trace (run WIN32 f w titles) titles).
Proof.
  intros Hparse Hload. unfold main. rewrite Hparse, Hload.
  rewrite (logs_run WIN32 f w titles (mkState titles [LoadingJSON])).
  cbn [catalog output]. fold (value (run WIN32 f w titles) titles).
  by destruct (value _ _).
Qed.

Lemma trace_then {A} (m : io unit) (a : A) t :
  logs m -> trace (_ ← m; mret a) t = trace m t.
Proof.
  intros Hm. rewrite trace_bind; [|done|intros; apply logs_ret].
  destruct (value m t); by rewrite app_nil_r.
Qed.

Lemma value_then {A} (m : io unit) (a : A) t :
  logs m ->
  value (_ ← m; mret a) t
  = match value m t with
    | inr _ => inr a
    | inl e => inl e
    end.
Proof. intros Hm. rewrite value_bind; [done|done|intros; apply logs_ret]. Qed.

Lemma value_printStats titleID batch titles t :
  value (printStats titleID batch titles) t = inr tt.
Proof.
  unfold printStats. destruct batch; [|by destruct (_ !! _)].
  apply value_for_each.
  - intros [id data]. pose proof logs_printTitleStats. solve_logs.
  - by intros [id data] _.
Qed.

Lemma trace_run WIN32 f w titles :
  trace (run WIN32 f w titles) titles
  = Banner ::
    if negb (String.eqb (titleIDFlag f) EmptyString)
    then trace (printStats (titleIDFlag f) false titles) titles
    else if summarizeFlag f
    then trace (printStats EmptyString true titles) titles
    else if fatxplorer f then
      if WIN32 then
        if exists_ w "X:/"
        then CheckingForContent
             :: trace (checkForContent WIN32 (volume w) "X:/TDATA") titles
        else [XDriveNotFound]
      else [WindowsOnly]
    else if negb (exists_ w "dump/TDATA") then [TDATANotFound]
    else CheckingForContent
         :: trace (checkForContent WIN32 (volume w) "dump/TDATA") titles.
Proof.
  unfold run. after_emit. f_equal.
  repeat match goal with
  | |- context [if ?b then _ else _] => destruct b
  end;
  rewrite ?trace_then by solve_logs; try done;
  after_emit; f_equal; by rewrite trace_then by solve_logs.
Qed.

(** The scan is in no [try] block: when it ends with an exception, so does
    [main]. *)
Lemma value_run WIN32 f w titles :
  value (run WIN32 f w titles) titles
  = if negb (String.eqb (titleIDFlag f) EmptyString) then inr (returned 0)
    else if summarizeFlag f then inr (returned 0)
    else if fatxplorer f then
      if WIN32 then
        if exists_ w "X:/"
        then _ ← value (checkForContent WIN32 (volume w) "X:/TDATA") titles;
             ok (returned 0)
        else inr (returned 0)
      else inr (returned 0)
    else if negb (exists_ w "dump/TDATA") then inr (returned 1)
    else _ ← value (checkForContent WIN32 (volume w) "dump/TDATA") titles;
         ok (returned 0).
Proof.
  unfold run. rewrite value_bind by solve_logs. rewrite value_emit.
  repeat match goal with
  | |- context [if ?b then _ else _] => destruct b
  end;
  rewrite ?value_then by solve_logs; rewrite ?value_printStats; try done;
  rewrite value_bind by solve_logs; rewrite value_emit;
  by rewrite value_then by solve_logs.
Qed.

(** X17.  The statistics modes come first and never look at the volume.
    With a non-empty [-titleid=] the program writes the statistics of that
    title, whatever other flags are given; otherwise with [-summarize] it
    writes those of all titles; either way it returns 0 and the result is
    the same for every volume. *)
Theorem statistics_modes (WIN32 : bool) (args : list string) (w : World)
    (f : flags) (titles : Titles) :
  parse_args args (mkFlags false EmptyString false) = Some f ->
  loadJSONData (id_database w) Titles_empty = inr titles ->
  (titleIDFlag f <> EmptyString ->
   main WIN32 args w
   = (returned 0,
      LoadingJSON :: Banner
      :: trace (printStats (titleIDFlag f) false titles) titles))
  /\ (titleIDFlag f = EmptyString -> summarizeFlag f = true ->
      main WIN32 args w
      = (returned 0,
         LoadingJSON :: Banner :: trace (printStats EmptyString true titles) titles))
  /\ (titleIDFlag f <> EmptyString \/ summarizeFlag f = true ->
      forall volume',
        main WIN32 args (mkWorld (id_database w) volume') = main WIN32 args w).
Proof.
  intros Hparse Hload.
  assert (H1 : titleIDFlag f <> EmptyString -> forall w',
    id_database w' = id_database w ->
    main WIN32 args w'
    = (returned 0,
       LoadingJSON :: Banner :: trace (printStats (titleIDFlag f) false titles) titles)).
  { intros Hid w' Hw.
    rewrite (main_loaded _ _ _ f titles), value_run, trace_run by congruence.
    by destruct (String.eqb_spec (titleIDFlag f) EmptyString). }
  assert (H2 : titleIDFlag f = EmptyString -> summarizeFlag f = true -> forall w',
    id_database w' = id_database w ->
    main WIN32 args w'
    = (returned 0,
       LoadingJSON :: Banner :: trace (printStats EmptyString true titles) titles)).
  { intros Hid Hsum w' Hw.
    rewrite (main_loaded _ _ _ f titles), value_run, trace_run by congruence.
    by rewrite Hid, Hsum. }
  split; [|split].
  - intros Hid. by apply H1.
  - intros Hid Hsum. by apply H2.
  - intros Hmode volume'.
    destruct (String.eqb_spec (titleIDFlag f) EmptyString) as [Hid|Hid].
    + destruct Hmode as [|Hsum]; [done|]. by rewrite !H2.
    + by rewrite !H1.
Qed.

Lemma statistics_modes_witness :
  main false ["-fatxplorer"; "-titleid=abcd1234"; "-summarize"]
    (mkWorld (Some (catalog_of (kString "cafe0001") [] sha1_of_empty))
       (volume_at "dump/TDATA" []))
  = (returned 0,
     [LoadingJSON; Banner; StatsHeader "abcd1234"; TitleStats "Game X" 1 0 1 0]).
Proof.
  refine (proj1 (statistics_modes false
    ["-fatxplorer"; "-titleid=abcd1234"; "-summarize"]
    (mkWorld (Some (catalog_of (kString "cafe0001") [] sha1_of_empty))
       (volume_at "dump/TDATA" []))
    (mkFlags true "abcd1234" true)
    (mkTitles {["abcd1234" := mkTitleData "Game X" ["cafe0001"] []
                  [mkTitleUpdate "XYZ: Title Update 2" sha1_of_empty] []]})
    _ _) _).
  - vm_compute. reflexivity.
  - vm_compute. reflexivity.
  - discriminate.
Defined.

(** X18.  With [-help] among the arguments the program writes the usage
    text and returns 0, whatever else is given and whatever the catalog and
    the volume are: nothing is loaded and nothing is scanned. *)
Theorem help_comes_first (WIN32 : bool) (args : list string) (w : World) :
  "-help" ∈ args -> main WIN32 args w = (returned 0, [Usage]).
Proof.
  intros Hhelp%(parse_args_help args (mkFlags false EmptyString false)).
  unfold main. by rewrite Hhelp.
Qed.

Lemma help_comes_first_witness :
  main true ["-summarize"; "-help"; "-fatxplorer"]
    (mkWorld None (volume_at "dump/TDATA" []))
  = (returned 0, [Usage]).
Proof.
  apply help_comes_first. apply elem_of_cons. right. apply elem_of_cons. by left.
Defined.

(** X19.  Without [-help] the flags do not depend on the order or the
    number of the arguments: the summary flag is set exactly when
    [-summarize] occurs, the alternate-root flag exactly when [-fatxplorer]
    occurs, the title identifier is the value of the last [-titleid=], and
    every other argument is ignored. *)
Theorem flags_are_read_off_the_arguments (args : list string) :
  "-help" ∉ args ->
  exists f,
    parse_args args (mkFlags false EmptyString false) = Some f
    /\ (summarizeFlag f = true <-> "-summarize" ∈ args)
    /\ (fatxplorer f = true <-> "-fatxplorer" ∈ args)
    /\ titleIDFlag f = last_titleid args.
Proof.
  unfold last_titleid.
  assert (Hgen : forall f0, "-help" ∉ args ->
    exists f, parse_args args f0 = Some f
      /\ (summarizeFlag f = true <-> summarizeFlag f0 = true \/ "-summarize" ∈ args)
      /\ (fatxplorer f = true <-> fatxplorer f0 = true \/ "-fatxplorer" ∈ args)
      /\ titleIDFlag f
         = fold_left (fun id arg =>
             if String.prefix "-titleid=" arg then Str.substr 9 arg else id)
           args (titleIDFlag f0)).
  { induction args as [|arg args IH]; intros f0 Hhelp.
    - exists f0. rewrite !elem_of_nil. cbn [parse_args fold_left]. tauto.
    - apply not_elem_of_cons in Hhelp as [Hne Hhelp]. cbn [parse_args fold_left].
      destruct (String.eqb_spec arg "-summarize") as [->|Hs].
      { change (String.prefix "-titleid=" "-summarize") with false.
        destruct (IH (mkFlags true (titleIDFlag f0) (fatxplorer f0)) Hhelp)
          as (f & -> & Hsum & Hfatx & Hid).
        cbn [summarizeFlag titleIDFlag fatxplorer] in *.
        exists f. rewrite Hsum, Hfatx, Hid, !elem_of_cons.
        intuition (auto; discriminate). }
      destruct (String.prefix "-titleid=" arg) eqn:Hprefix.
      { assert (Hpre : arg <> "-fatxplorer").
        { intros ->. vm_compute in Hprefix. discriminate. }
        destruct (IH (mkFlags (summarizeFlag f0) (Str.substr 9 arg) (fatxplorer f0)) Hhelp)
          as (f & -> & Hsum & Hfatx & Hid).
        cbn [summarizeFlag titleIDFlag fatxplorer] in *.
        exists f. rewrite Hsum, Hfatx, Hid, !elem_of_cons.
        intuition (auto; congruence). }
      destruct (String.eqb_spec arg "-fatxplorer") as [->|Hf].
      { change (String.prefix "-titleid=" "-fatxplorer") with false.
        destruct (IH (mkFlags (summarizeFlag f0) (titleIDFlag f0) true) Hhelp)
          as (f & -> & Hsum & Hfatx & Hid).
        cbn [summarizeFlag titleIDFlag fatxplorer] in *.
        exists f. rewrite Hsum, Hfatx, Hid, !elem_of_cons.
        intuition (auto; discriminate). }
      destruct (String.eqb_spec arg "-help") as [->|_]; [done|].
      destruct (IH f0 Hhelp) as (f & -> & Hsum & Hfatx & Hid).
      exists f. rewrite Hsum, Hfatx, Hid, !elem_of_cons.
      intuition (auto; congruence). }
  intros Hhelp.
  destruct (Hgen (mkFlags false EmptyString false) Hhelp)
    as (f & Hparse & Hsum & Hfatx & Hid).
  exists f. cbn [summarizeFlag titleIDFlag fatxplorer] in *. rewrite Hsum, Hfatx, Hid.
  intuition (auto; discriminate).
Qed.

Lemma flags_are_read_off_the_arguments_witness :
  exists f,
    parse_args ["-titleid=aaaa0000"; "verbose"; "-fatxplorer"; "-titleid=abcd1234";
                "-fatxplorer"] (mkFlags false EmptyString false) = Some f
    /\ summarizeFlag f = false /\ fatxplorer f = true
    /\ titleIDFlag f = "abcd1234".
Proof.
  destruct (flags_are_read_off_the_arguments
    ["-titleid=aaaa0000"; "verbose"; "-fatxplorer"; "-titleid=abcd1234";
     "-fatxplorer"]) as (f & Hparse & Hsum & Hfatx & Hid).
  - intros H. repeat (apply elem_of_cons in H as [H|H]; [discriminate H|]).
    by apply elem_of_nil in H.
  - exists f. split; [done|]. vm_compute in Hparse. injection Hparse as <-. done.
Defined.

(** X20.  In the scan modes the program scans one root at most.  Without
    [-fatxplorer] it scans [dump/TDATA] when something exists there, and
    entry after entry when that is a directory it can list; with
    [-fatxplorer] it never looks at [dump/TDATA]: a build without [_WIN32]
    scans nothing at all, and a build with it scans [X:/TDATA] when [X:/]
    exists and reports the missing drive otherwise.  After a scan that runs
    to its end the program returns 0; a scan that an exception leaves takes
    the process with it. *)
Theorem scan_modes (WIN32 : bool) (args : list string) (w : World) (f : flags)
    (titles : Titles) :
  parse_args args (mkFlags false EmptyString false) = Some f ->
  loadJSONData (id_database w) Titles_empty = inr titles ->
  titleIDFlag f = EmptyString ->
  summarizeFlag f = false ->
  let scan root := checkForContent WIN32 (volume w) root in
  let status_after root :=
    ending (_ ← value (scan root) titles; ok (returned 0)) in
  (fatxplorer f = false ->
   forall root entries, volume w "dump/TDATA" = Some (fs.directory root entries) ->
   value (for_each entries (check_entry WIN32 "dump/TDATA")) titles = inr tt ->
   main WIN32 args w
   = (returned 0,
      LoadingJSON :: Banner :: CheckingForContent
      :: flat_map (fun e => trace (check_entry WIN32 "dump/TDATA" e) titles) entries))
  /\ (fatxplorer f = false -> is_Some (volume w "dump/TDATA") ->
      main WIN32 args w
      = (status_after "dump/TDATA",
         LoadingJSON :: Banner :: CheckingForContent
         :: trace (scan "dump/TDATA") titles))
  /\ (fatxplorer f = true -> WIN32 = false ->
      main WIN32 args w = (returned 0, [LoadingJSON; Banner; WindowsOnly]))
  /\ (fatxplorer f = true -> WIN32 = true -> volume w "X:/" = None ->
      main WIN32 args w = (returned 0, [LoadingJSON; Banner; XDriveNotFound]))
  /\ (fatxplorer f = true -> WIN32 = true -> is_Some (volume w "X:/") ->
      main WIN32 args w
      = (status_after "X:/TDATA",
         LoadingJSON :: Banner :: CheckingForContent
         :: trace (scan "X:/TDATA") titles)).
Proof.
  intros Hparse Hload Hid Hsum scan status_after.
  rewrite (main_loaded _ _ _ f titles), value_run, trace_run by done.
  rewrite Hid, Hsum. cbn [String.eqb negb]. unfold exists_, status_after, scan.
  repeat split.
  - intros -> root entries Hroot Hdone.
    rewrite value_checkForContent, trace_checkForContent, Hroot.
    cbn [fs.directory_iterator negb]. unfold ok. rewrite Hdone.
    by rewrite trace_for_each_complete by (done || apply logs_check_entry).
  - by intros -> [root ->].
  - by intros -> ->.
  - by intros -> -> ->.
  - by intros -> -> [root ->].
Qed.

Lemma scan_modes_witness :
  main false ["-fatxplorer"]
    (mkWorld (Some (catalog_of (kString "cafe0001") [] sha1_of_empty))
       (volume_at "dump/TDATA" [fs.directory "ABCD1234" []]))
  = (returned 0, [LoadingJSON; Banner; WindowsOnly]).
Proof.
  refine (proj1 (proj2 (proj2 (scan_modes false ["-fatxplorer"]
    (mkWorld (Some (catalog_of (kString "cafe0001") [] sha1_of_empty))
       (volume_at "dump/TDATA" [fs.directory "ABCD1234" []]))
    (mkFlags false EmptyString true)
    (mkTitles {["abcd1234" := mkTitleData "Game X" ["cafe0001"] []
                  [mkTitleUpdate "XYZ: Title Update 2" sha1_of_empty] []]})
    _ _ _ _))) _ _); vm_compute; reflexivity.
Defined.

(** ** Locality *)

Lemma check_dlc_catalog WIN32 data titleID entry_path entry t1 t2 :
  value (check_dlc WIN32 data titleID entry_path entry) t1
  = value (check_dlc WIN32 data titleID entry_path entry) t2
  /\ trace (check_dlc WIN32 data titleID entry_path entry) t1
     = trace (check_dlc WIN32 data titleID entry_path entry) t2.
Proof. apply check_dlc_agree. intros. apply check_subContent_catalog. Qed.

Lemma check_updates_catalog WIN32 data titleID entry_path entry t1 t2 :
  value (check_updates WIN32 data titleID entry_path entry) t1
  = value (check_updates WIN32 data titleID entry_path entry) t2
  /\ trace (check_updates WIN32 data titleID entry_path entry) t1
     = trace (check_updates WIN32 data titleID entry_path entry) t2.
Proof. apply check_updates_agree. intros. apply trace_check_update_file_catalog. Qed.

(** X21.  What is written for a title folder depends on the catalog only
    through the record under the folder's name in lower case: two catalogs
    that agree on that key give the same report, so the identifiers and
    hashes of other titles never classify anything in the folder. *)
Theorem title_folder_depends_on_its_record (WIN32 : bool) (directory : string)
    (entry : fs.node) (t1 t2 : Titles) :
  Titles_map t1 !! Str.transform Str.tolower (fs.filename entry)
  = Titles_map t2 !! Str.transform Str.tolower (fs.filename entry) ->
  trace (check_entry WIN32 directory entry) t1
  = trace (check_entry WIN32 directory entry) t2.
Proof.
  intros Hkey. rewrite !trace_check_entry. destruct (_ && _); [|done].
  cbv zeta. rewrite Hkey. destruct (Titles_map t2 !! _) as [data|]; [|done].
  set (titleID := Str.transform Str.tolower (fs.filename entry)).
  set (entry_path := fs.append WIN32 directory (fs.filename entry)).
  destruct (check_dlc_catalog WIN32 data titleID entry_path entry t1 t2) as [-> ->].
  by destruct (check_updates_catalog WIN32 data titleID entry_path entry t1 t2)
    as [_ ->].
Qed.

Lemma title_folder_depends_on_its_record_witness :
  let game := mkTitleData "Game X" ["cafe0001"] [] [] [] in
  let other := mkTitleData "Game Y" ["cafe0001"] [] [] [{["cafe0001" := "Pack"]}] in
  let entry := fs.directory "ABCD1234" [fs.directory "$c" [fs.directory "cafe0001" []]] in
  trace (check_entry false "dump/TDATA" entry)
        (mkTitles {["abcd1234" := game]})
  = trace (check_entry false "dump/TDATA" entry)
          (mkTitles (<["ffff0000" := other]> {["abcd1234" := game]})).
Proof.
  intros game other entry.
  apply title_folder_depends_on_its_record. vm_compute. reflexivity.
Defined.

(** ** Directories that cannot be listed *)

(** X22.  An exception of a directory listing is caught nowhere.  When the
    root of the default scan exists but no iterator opens on it, because it
    is not a directory or refuses to be listed, nothing is scanned; when
    the scan of a title folder fails, the scan ends there, with the reports
    written so far, and the folders after it are not visited; either way
    [main] does not return and the process is aborted.  The scan of a title
    folder fails when no iterator opens on its [$c], with the folder found
    as its only report, or on its [$u], after the reports of its [$c]; and
    the scan of a content folder fails when it is known and unarchived and
    no iterator opens on it. *)
Theorem listing_failure_ends_the_process (WIN32 : bool) (args : list string)
    (w : World) (f : flags) (titles : Titles) (root : fs.node) :
  parse_args args (mkFlags false EmptyString false) = Some f ->
  loadJSONData (id_database w) Titles_empty = inr titles ->
  titleIDFlag f = EmptyString ->
  summarizeFlag f = false ->
  fatxplorer f = false ->
  volume w "dump/TDATA" = Some root ->
  let scan := check_entry WIN32 "dump/TDATA" in
  (forall e, fs.directory_iterator "dump/TDATA" root = inl e ->
     main WIN32 args w = (aborted, [LoadingJSON; Banner; CheckingForContent]))
  /\ (forall name earlier entry later e,
        root = fs.directory name (earlier ++ entry :: later) ->
        value (for_each earlier scan) titles = inr tt ->
        value (scan entry) titles = inl e ->
        main WIN32 args w
        = (aborted,
           LoadingJSON :: Banner :: CheckingForContent
           :: trace (for_each earlier scan) titles ++ trace (scan entry) titles))
  /\ (forall entry data area e,
        fs.is_directory entry = true ->
        String.length (fs.filename entry) = 8 ->
        let titleID := Str.transform Str.tolower (fs.filename entry) in
        let entry_path := fs.append WIN32 "dump/TDATA" (fs.filename entry) in
        Titles_map titles !! titleID = Some data ->
        (directory_at "$c" entry = Some area ->
         fs.directory_iterator (entry_path +:+ "/$c") area = inl e ->
         value (scan entry) titles = inl e
         /\ trace (scan entry) titles = [FoundFolder (TitleName data)])
        /\ (directory_at "$u" entry = Some area ->
            fs.directory_iterator (entry_path +:+ "/$u") area = inl e ->
            value (check_dlc WIN32 data titleID entry_path entry) titles = inr tt ->
            value (scan entry) titles = inl e
            /\ trace (scan entry) titles
               = FoundFolder (TitleName data)
                 :: trace (check_dlc WIN32 data titleID entry_path entry) titles))
  /\ (forall data subDirDLC subContent e,
        fs.is_directory subContent = true ->
        let contentID := Str.transform Str.tolower (fs.filename subContent) in
        let path := fs.append WIN32 subDirDLC (fs.filename subContent) in
        contentID ∈ ContentIDs data ->
        find_archived (Archived data) contentID = EmptyString ->
        fs.directory_iterator path subContent = inl e ->
        value (check_subContent WIN32 data subDirDLC subContent) titles = inl e
        /\ trace (check_subContent WIN32 data subDirDLC subContent) titles
           = [CheckingContentID contentID; ContentIDFound contentID;
              UnarchivedContentFound (TitleName data) path]).
Proof.
  intros Hparse Hload Hid Hsum Hfatx Hroot scan. subst scan.
  assert (Hmain : main WIN32 args w
    = (ending (_ ← value (checkForContent WIN32 (volume w) "dump/TDATA") titles;
               ok (returned 0)),
       LoadingJSON :: Banner :: CheckingForContent
       :: trace (checkForContent WIN32 (volume w) "dump/TDATA") titles)).
  { rewrite (main_loaded _ _ _ f titles), value_run, trace_run by done.
    rewrite Hid, Hsum, Hfatx. unfold exists_. by rewrite Hroot. }
  rewrite Hmain, value_checkForContent, trace_checkForContent, Hroot.
  split; [|split; [|split]].
  - by intros e ->.
  - intros name earlier entry later e -> Hearlier Hentry.
    cbn [fs.directory_iterator]. unfold ok.
    destruct (for_each_fails earlier later entry (check_entry WIN32 "dump/TDATA")
                titles e) as [-> ->]; [apply logs_check_entry|done..].
  - intros entry data area e Hdir Hlen titleID entry_path Hfind.
    rewrite value_check_entry, trace_check_entry, Hdir, Hlen.
    cbn [andb Nat.eqb]. cbv zeta. fold titleID entry_path. rewrite Hfind.
    split.
    + intros Harea Hlist. unfold check_dlc. rewrite Harea.
      rewrite value_bind, trace_bind by solve_logs.
      by rewrite value_lift, trace_lift, Hlist.
    + intros Harea Hlist Hdlc. rewrite Hdlc. unfold check_updates.
      rewrite Harea. rewrite value_bind, trace_bind by solve_logs.
      by rewrite value_lift, trace_lift, Hlist, app_nil_r.
  - intros data subDirDLC subContent e Hdir contentID path Hin%contains_elem_of
      Hlabel Hlist.
    rewrite value_check_subContent, trace_check_subContent, Hdir. cbv zeta.
    fold contentID path. by rewrite Hin, Hlabel, Hlist.
Qed.

Lemma listing_failure_ends_the_process_witness :
  main false []
    (mkWorld (Some (catalog_of (kString "cafe0001") [] sha1_of_empty))
       (fun path => if String.eqb path "dump/TDATA"
                    then Some (fs.regular_file "TDATA" (fs.readable []))
                    else None))
  = (aborted, [LoadingJSON; Banner; CheckingForContent]).
Proof.
  refine (proj1 (listing_failure_ends_the_process false []
    (mkWorld (Some (catalog_of (kString "cafe0001") [] sha1_of_empty))
       (fun path => if String.eqb path "dump/TDATA"
                    then Some (fs.regular_file "TDATA" (fs.readable []))
                    else None))
    (mkFlags false EmptyString false)
    (mkTitles {["abcd1234" := mkTitleData "Game X" ["cafe0001"] []
                  [mkTitleUpdate "XYZ: Title Update 2" sha1_of_empty] []]})
    (fs.regular_file "TDATA" (fs.readable []))
    _ _ _ _ _ _) _ _).
  - reflexivity.
  - vm_compute. reflexivity.
  - reflexivity.
  - reflexivity.
  - reflexivity.
  - reflexivity.
  - reflexivity.
Defined.

(** A content folder that refuses to be listed, in a run from [main]: the
    folder is reported as unarchived, the process is aborted, and neither
    the updates of the title nor the next title folder are looked at. *)
Example scenario_locked_content_folder :
  main false []
    (mkWorld (Some (catalog_of (kString "cafe0001") [] sha1_of_empty))
       (volume_at "dump/TDATA"
          [fs.directory "ABCD1234"
             [fs.directory "$c"
                [fs.locked_directory "cafe0001"
                   [fs.regular_file "default.xbe" (fs.readable [])]];
              fs.directory "$u" [fs.regular_file "default.xbe" (fs.readable [])]];
           fs.directory "ZZZZ9999" []]))
  = (aborted,
     [LoadingJSON; Banner; CheckingForContent; FoundFolder "Game X";
      CheckingContentID "cafe0001"; ContentIDFound "cafe0001";
      UnarchivedContentFound "Game X" "dump/TDATA/ABCD1234/$c/cafe0001"]).
Proof. vm_compute. reflexivity. Qed.

(** A title folder that refuses to be listed is scanned all the same: the
    scan asks for its [$c] and [$u] by path and never lists the folder. *)
Example scenario_locked_title_folder :
  main false []
    (mkWorld (Some (catalog_of (kString "cafe0001") [] sha1_of_empty))
       (volume_at "dump/TDATA"
          [fs.locked_directory "ABCD1234"
             [fs.directory "$u" [fs.regular_file "default.xbe" fs.unreadable]]]))
  = (returned 0,
     [LoadingJSON; Banner; CheckingForContent; FoundFolder "Game X";
      NoDLCFound "abcd1234";
      HashError "dump/TDATA/ABCD1234/$u/default.xbe"
        "Failed to open file: dump/TDATA/ABCD1234/$u/default.xbe"]).
Proof. vm_compute. reflexivity. Qed.
